(** * dnscontrol: the print-ir / check pipeline of commands/printIR.go

    A shallow embedding of [commands/printIR.go] and the properties of its
    variable mapper, issue classifier, serializer and orchestrator.

    The functions of the file are state-passing computations over a world
    that holds the files, the two standard streams, the settings of the
    logger and the calls made to the collaborators (evaluator,
    post-processor, validator, renderer, operating system). The
    collaborators are parameters; the library functions the properties
    depend on ([strings.SplitN], the indenter of [encoding/json]) are
    embedded. *)

From Stdlib Require Import ZArith Lia Ascii String DecimalString.
From stdpp Require Import base option list gmap strings.

Local Open Scope Z_scope.

(** ** Go strings

    A Go string is a sequence of bytes; [string] (a list of [ascii]) is the
    same data. *)

Module GoString.

Fixpoint take (n : nat) (s : string) : string :=
  match n, s with
  | S k, String c s' => String c (take k s')
  | _, _ => ""
  end.

Fixpoint drop (n : nat) (s : string) : string :=
  match n, s with
  | S k, String _ s' => drop k s'
  | _, _ => s
  end.

(** [strings.Index(s, sep)]: the byte offset of the first instance of
    [sep] in [s], [None] for Go's -1. *)
Fixpoint Index (s sep : string) : option nat :=
  if String.prefix sep s then Some 0%nat
  else match s with
       | "" => None
       | String _ s' => S <$> Index s' sep
       end.

(** The loop of [strings.genSplit] for a non-empty separator and
    [sepSave = 0]: [fuel] is the number of cuts still allowed. *)
Fixpoint genSplit_loop (fuel : nat) (s sep : string) : list string :=
  match fuel with
  | O => [s]
  | S k =>
      match Index s sep with
      | None => [s]
      | Some m =>
          take m s :: genSplit_loop k (drop (m + String.length sep) s) sep
      end
  end.

(** [strings.SplitN(s, sep, n)] for [n >= 0] and a non-empty [sep]: at most
    [n] substrings, the last one being the unsplit remainder; [n = 0] gives
    the nil slice. The count is clamped to [len(s) + 1] as in the library. *)
Definition SplitN (s sep : string) (n : nat) : list string :=
  match n with
  | O => []
  | S _ => genSplit_loop (Nat.min n (String.length s + 1) - 1) s sep
  end.

(** [%d] of a non-negative [int]. *)
Definition fmt_d (n : nat) : string :=
  NilZero.string_of_uint (Nat.to_uint n).

End GoString.

(** ** The variable mapper *)

(** [stringSliceToMap]: the argument is the slice [stringSlice.Value()]; the
    map under construction is threaded through the range loop. *)
Definition stringSliceToMap_step (mapString : gmap string string) (values : string)
  : gmap string string :=
  match GoString.SplitN values "=" 2 with
  | [k; v] => <[k := v]> mapString
  | _ => mapString
  end.

Definition stringSliceToMap (stringSlice : list string) : gmap string string :=
  fold_left stringSliceToMap_step stringSlice ∅.

(** A token contains the byte [=]. *)
Definition has_eq (s : string) : Prop := ∃ a b, s = a +:+ "=" +:+ b.

(** The binding of [k] is decided by the last token whose key is [k]. *)
Definition last_binding (l : list string) (k v : string) : Prop :=
  ∃ l1 l2, l = l1 ++ (k +:+ "=" +:+ v) :: l2 ∧ ¬ has_eq k
           ∧ ∀ t v', t ∈ l2 → t ≠ k +:+ "=" +:+ v'.


(** ** encoding/json: the scanner and the indenter

    [PrintJSON] renders with [json.Marshal] or with [json.MarshalIndent],
    and [MarshalIndent] is [Marshal] followed by the library's indenter. The
    indenter and the scanner that drives it are embedded here, one
    definition per library function. The scanner's [step] field, a function
    value in Go, is the name of the state function. *)

Module json.

Inductive scanCode :=
| scanContinue | scanBeginLiteral | scanBeginObject | scanObjectKey
| scanObjectValue | scanEndObject | scanBeginArray | scanArrayValue
| scanEndArray | scanSkipSpace | scanEnd | scanError.

Inductive parseCode := parseObjectKey | parseObjectValue | parseArrayValue.

Inductive stepFn :=
| StateBeginValueOrEmpty | StateBeginValue | StateBeginStringOrEmpty
| StateBeginString | StateEndValue | StateEndTop
| StateInString | StateInStringEsc | StateInStringEscU | StateInStringEscU1
| StateInStringEscU12 | StateInStringEscU123
| StateNeg | State1 | State0 | StateDot | StateDot0 | StateE | StateESign
| StateE0 | StateT | StateTr | StateTru | StateF | StateFa | StateFal
| StateFals | StateN | StateNu | StateNul | StateError.

(** [*SyntaxError]: the message and the offset of the error. *)
Record SyntaxError := { msg : string; Offset : Z }.

(** The stack [parseState] is kept with its top first. *)
Record scanner := {
  step : stepFn;
  endTop : bool;
  parseState : list parseCode;
  err : option SyntaxError;
  bytes : Z
}.

Definition set_step (f : stepFn) (s : scanner) : scanner :=
  {| step := f; endTop := endTop s; parseState := parseState s;
     err := err s; bytes := bytes s |}.

Definition set_endTop (b : bool) (s : scanner) : scanner :=
  {| step := step s; endTop := b; parseState := parseState s;
     err := err s; bytes := bytes s |}.

Definition set_parseState (ps : list parseCode) (s : scanner) : scanner :=
  {| step := step s; endTop := endTop s; parseState := ps;
     err := err s; bytes := bytes s |}.

Definition set_err (e : option SyntaxError) (s : scanner) : scanner :=
  {| step := step s; endTop := endTop s; parseState := parseState s;
     err := e; bytes := bytes s |}.

Definition set_bytes (n : Z) (s : scanner) : scanner :=
  {| step := step s; endTop := endTop s; parseState := parseState s;
     err := err s; bytes := n |}.

Definition maxNestingDepth : Z := 10000.

Definition byte_is (c d : ascii) : bool := Ascii.eqb c d.

Definition between (lo hi c : ascii) : bool :=
  ((N_of_ascii lo <=? N_of_ascii c) && (N_of_ascii c <=? N_of_ascii hi))%N.

Definition isSpace (c : ascii) : bool :=
  (N_of_ascii c <=? N_of_ascii " ")%N
  && (byte_is c " " || byte_is c "009" || byte_is c "013" || byte_is c "010").

Definition isDigit (c : ascii) : bool := between "0" "9" c.

Definition isHex (c : ascii) : bool :=
  between "0" "9" c || between "a" "f" c || between "A" "F" c.

Section Scanner.

(** [quoteChar], which renders the offending byte in an error message
    through [strconv.Quote]; the text it returns plays no part below. *)
Variable quoteChar : ascii → string.

(** [s.error(c, context)] *)
Definition error (s : scanner) (c : ascii) (context : string)
  : scanner * scanCode :=
  (set_err (Some {| msg := "invalid character " +:+ quoteChar c +:+ " " +:+ context;
                    Offset := bytes s |})
     (set_step StateError s),
   scanError).

Definition pushParseState (s : scanner) (c : ascii) (newParseState : parseCode)
    (successState : scanCode) : scanner * scanCode :=
  let s := set_parseState (newParseState :: parseState s) s in
  if Z.of_nat (length (parseState s)) <=? maxNestingDepth then (s, successState)
  else error s c "exceeded max depth".

(** [n := len(s.parseState) - 1]; every caller has a non-empty stack. *)
Definition popParseState (s : scanner) : scanner :=
  let s := set_parseState (tail (parseState s)) s in
  match parseState s with
  | [] => set_endTop true (set_step StateEndTop s)
  | _ :: _ => set_step StateEndValue s
  end.

Definition stateEndTop (s : scanner) (c : ascii) : scanner * scanCode :=
  if negb (isSpace c)
  then (fst (error s c "after top-level value"), scanEnd)
  else (s, scanEnd).

Definition stateEndValue (s : scanner) (c : ascii) : scanner * scanCode :=
  match parseState s with
  | [] => stateEndTop (set_endTop true (set_step StateEndTop s)) c
  | ps :: rest =>
      if isSpace c then (set_step StateEndValue s, scanSkipSpace)
      else
        match ps with
        | parseObjectKey =>
            if byte_is c ":" then
              (set_step StateBeginValue
                 (set_parseState (parseObjectValue :: rest) s), scanObjectKey)
            else error s c "after object key"
        | parseObjectValue =>
            if byte_is c "," then
              (set_step StateBeginString
                 (set_parseState (parseObjectKey :: rest) s), scanObjectValue)
            else if byte_is c "}" then (popParseState s, scanEndObject)
            else error s c "after object key:value pair"
        | parseArrayValue =>
            if byte_is c "," then (set_step StateBeginValue s, scanArrayValue)
            else if byte_is c "]" then (popParseState s, scanEndArray)
            else error s c "after array element"
        end
  end.

Definition stateBeginValue (s : scanner) (c : ascii) : scanner * scanCode :=
  if isSpace c then (s, scanSkipSpace)
  else if byte_is c "{" then
    pushParseState (set_step StateBeginStringOrEmpty s) c parseObjectKey scanBeginObject
  else if byte_is c "[" then
    pushParseState (set_step StateBeginValueOrEmpty s) c parseArrayValue scanBeginArray
  else if byte_is c "034" then (set_step StateInString s, scanBeginLiteral)
  else if byte_is c "-" then (set_step StateNeg s, scanBeginLiteral)
  else if byte_is c "0" then (set_step State0 s, scanBeginLiteral)
  else if byte_is c "t" then (set_step StateT s, scanBeginLiteral)
  else if byte_is c "f" then (set_step StateF s, scanBeginLiteral)
  else if byte_is c "n" then (set_step StateN s, scanBeginLiteral)
  else if between "1" "9" c then (set_step State1 s, scanBeginLiteral)
  else error s c "looking for beginning of value".

Definition stateBeginValueOrEmpty (s : scanner) (c : ascii) : scanner * scanCode :=
  if isSpace c then (s, scanSkipSpace)
  else if byte_is c "]" then stateEndValue s c
  else stateBeginValue s c.

Definition stateBeginString (s : scanner) (c : ascii) : scanner * scanCode :=
  if isSpace c then (s, scanSkipSpace)
  else if byte_is c "034" then (set_step StateInString s, scanBeginLiteral)
  else error s c "looking for beginning of object key string".

(** On [}] the top of the stack becomes [parseObjectValue]; the state is
    entered only after a push, so the stack is not empty. *)
Definition stateBeginStringOrEmpty (s : scanner) (c : ascii) : scanner * scanCode :=
  if isSpace c then (s, scanSkipSpace)
  else if byte_is c "}" then
    stateEndValue (set_parseState (parseObjectValue :: tail (parseState s)) s) c
  else stateBeginString s c.

Definition stateInString (s : scanner) (c : ascii) : scanner * scanCode :=
  if byte_is c "034" then (set_step StateEndValue s, scanContinue)
  else if byte_is c "\" then (set_step StateInStringEsc s, scanContinue)
  else if (N_of_ascii c <? 32)%N then error s c "in string literal"
  else (s, scanContinue).

Definition stateInStringEsc (s : scanner) (c : ascii) : scanner * scanCode :=
  if byte_is c "b" || byte_is c "f" || byte_is c "n" || byte_is c "r" || byte_is c "t" || byte_is c "\"
     || byte_is c "/" || byte_is c "034"
  then (set_step StateInString s, scanContinue)
  else if byte_is c "u" then (set_step StateInStringEscU s, scanContinue)
  else error s c "in string escape code".

Definition stateInStringEscU_next (next : stepFn) (s : scanner) (c : ascii)
  : scanner * scanCode :=
  if isHex c then (set_step next s, scanContinue)
  else error s c "in \u hexadecimal character escape".

Definition stateInStringEscU := stateInStringEscU_next StateInStringEscU1.
Definition stateInStringEscU1 := stateInStringEscU_next StateInStringEscU12.
Definition stateInStringEscU12 := stateInStringEscU_next StateInStringEscU123.
Definition stateInStringEscU123 := stateInStringEscU_next StateInString.

Definition stateNeg (s : scanner) (c : ascii) : scanner * scanCode :=
  if byte_is c "0" then (set_step State0 s, scanContinue)
  else if between "1" "9" c then (set_step State1 s, scanContinue)
  else error s c "in numeric literal".

Definition state0 (s : scanner) (c : ascii) : scanner * scanCode :=
  if byte_is c "." then (set_step StateDot s, scanContinue)
  else if byte_is c "e" || byte_is c "E" then (set_step StateE s, scanContinue)
  else stateEndValue s c.

Definition state1 (s : scanner) (c : ascii) : scanner * scanCode :=
  if isDigit c then (set_step State1 s, scanContinue)
  else state0 s c.

Definition stateDot (s : scanner) (c : ascii) : scanner * scanCode :=
  if isDigit c then (set_step StateDot0 s, scanContinue)
  else error s c "after decimal point in numeric literal".

Definition stateDot0 (s : scanner) (c : ascii) : scanner * scanCode :=
  if isDigit c then (s, scanContinue)
  else if byte_is c "e" || byte_is c "E" then (set_step StateE s, scanContinue)
  else stateEndValue s c.

Definition stateESign (s : scanner) (c : ascii) : scanner * scanCode :=
  if isDigit c then (set_step StateE0 s, scanContinue)
  else error s c "in exponent of numeric literal".

Definition stateE (s : scanner) (c : ascii) : scanner * scanCode :=
  if byte_is c "+" || byte_is c "-" then (set_step StateESign s, scanContinue)
  else stateESign s c.

Definition stateE0 (s : scanner) (c : ascii) : scanner * scanCode :=
  if isDigit c then (s, scanContinue)
  else stateEndValue s c.

(** One letter of a literal [true], [false] or [null]. *)
Definition stateLetter (want : ascii) (next : stepFn) (context : string)
    (s : scanner) (c : ascii) : scanner * scanCode :=
  if byte_is c want then (set_step next s, scanContinue)
  else error s c context.

Definition stateT := stateLetter "r" StateTr "in literal true (expecting 'r')".
Definition stateTr := stateLetter "u" StateTru "in literal true (expecting 'u')".
Definition stateTru := stateLetter "e" StateEndValue "in literal true (expecting 'e')".
Definition stateF := stateLetter "a" StateFa "in literal false (expecting 'a')".
Definition stateFa := stateLetter "l" StateFal "in literal false (expecting 'l')".
Definition stateFal := stateLetter "s" StateFals "in literal false (expecting 's')".
Definition stateFals := stateLetter "e" StateEndValue "in literal false (expecting 'e')".
Definition stateN := stateLetter "u" StateNu "in literal null (expecting 'u')".
Definition stateNu := stateLetter "l" StateNul "in literal null (expecting 'l')".
Definition stateNul := stateLetter "l" StateEndValue "in literal null (expecting 'l')".

Definition stateError (s : scanner) (c : ascii) : scanner * scanCode :=
  (s, scanError).

(** The call [s.step(s, c)]. *)
Definition call_step (s : scanner) (c : ascii) : scanner * scanCode :=
  match step s with
  | StateBeginValueOrEmpty => stateBeginValueOrEmpty s c
  | StateBeginValue => stateBeginValue s c
  | StateBeginStringOrEmpty => stateBeginStringOrEmpty s c
  | StateBeginString => stateBeginString s c
  | StateEndValue => stateEndValue s c
  | StateEndTop => stateEndTop s c
  | StateInString => stateInString s c
  | StateInStringEsc => stateInStringEsc s c
  | StateInStringEscU => stateInStringEscU s c
  | StateInStringEscU1 => stateInStringEscU1 s c
  | StateInStringEscU12 => stateInStringEscU12 s c
  | StateInStringEscU123 => stateInStringEscU123 s c
  | StateNeg => stateNeg s c
  | State1 => state1 s c
  | State0 => state0 s c
  | StateDot => stateDot s c
  | StateDot0 => stateDot0 s c
  | StateE => stateE s c
  | StateESign => stateESign s c
  | StateE0 => stateE0 s c
  | StateT => stateT s c
  | StateTr => stateTr s c
  | StateTru => stateTru s c
  | StateF => stateF s c
  | StateFa => stateFa s c
  | StateFal => stateFal s c
  | StateFals => stateFals s c
  | StateN => stateN s c
  | StateNu => stateNu s c
  | StateNul => stateNul s c
  | StateError => stateError s c
  end.

(** [newScanner()]: a scanner after [reset], with no byte counted. *)
Definition newScanner : scanner :=
  {| step := StateBeginValue; endTop := false; parseState := [];
     err := None; bytes := 0 |}.

(** [s.eof()] *)
Definition eof (s : scanner) : scanner * scanCode :=
  match err s with
  | Some _ => (s, scanError)
  | None =>
      if endTop s then (s, scanEnd)
      else
        let s := fst (call_step s " ") in
        if endTop s then (s, scanEnd)
        else
          match err s with
          | None =>
              (set_err (Some {| msg := "unexpected end of JSON input";
                                Offset := bytes s |}) s, scanError)
          | Some _ => (s, scanError)
          end
  end.

Fixpoint repeat_string (n : nat) (s : string) : string :=
  match n with
  | O => ""
  | S k => s +:+ repeat_string k s
  end.

(** [appendNewline]: the loop runs [depth] times, not at all when
    [depth <= 0]. *)
Definition appendNewline (dst prefix indent : string) (depth : Z) : string :=
  dst +:+ String "010" "" +:+ prefix +:+ repeat_string (Z.to_nat depth) indent.

Definition push (dst : string) (c : ascii) : string := dst +:+ String c "".

Definition isEnd (v : scanCode) : bool :=
  match v with scanEndObject | scanEndArray => true | _ => false end.

(** The range loop of [appendIndent] over the bytes of [src]; it returns
    the scanner and [dst] as they are when the loop is left. *)
Fixpoint appendIndent_loop (src prefix indent : string) (scan : scanner)
    (needIndent : bool) (depth : Z) (dst : string) : scanner * string :=
  match src with
  | "" => (scan, dst)
  | String c src' =>
      let scan := set_bytes (bytes scan + 1) scan in
      let '(scan, v) := call_step scan c in
      match v with
      | scanSkipSpace =>
          appendIndent_loop src' prefix indent scan needIndent depth dst
      | scanError => (scan, dst)
      | _ =>
          let '(needIndent, depth, dst) :=
            if needIndent && negb (isEnd v)
            then (false, depth + 1, appendNewline dst prefix indent (depth + 1))
            else (needIndent, depth, dst) in
          match v with
          | scanContinue =>
              appendIndent_loop src' prefix indent scan needIndent depth (push dst c)
          | _ =>
              if byte_is c "{" || byte_is c "[" then
                appendIndent_loop src' prefix indent scan true depth (push dst c)
              else if byte_is c "," then
                appendIndent_loop src' prefix indent scan needIndent depth
                  (appendNewline (push dst c) prefix indent depth)
              else if byte_is c ":" then
                appendIndent_loop src' prefix indent scan needIndent depth
                  (push (push dst c) " ")
              else if byte_is c "}" || byte_is c "]" then
                if needIndent then
                  appendIndent_loop src' prefix indent scan false depth (push dst c)
                else
                  appendIndent_loop src' prefix indent scan needIndent (depth - 1)
                    (push (appendNewline dst prefix indent (depth - 1)) c)
              else
                appendIndent_loop src' prefix indent scan needIndent depth (push dst c)
          end
      end
  end.

(** [appendIndent(dst, src, prefix, indent)]: on a syntax error [dst] is
    cut back to its original length. *)
Definition appendIndent (dst src prefix indent : string)
  : string * option SyntaxError :=
  let '(scan, out) := appendIndent_loop src prefix indent newScanner false 0 dst in
  let '(scan, v) := eof scan in
  match v with
  | scanError => (dst, err scan)
  | _ => (out, None)
  end.

End Scanner.

(** The text without the bytes that [ws] holds for white space. *)
Fixpoint remove (ws : ascii → bool) (s : string) : string :=
  match s with
  | "" => ""
  | String c s' => if ws c then remove ws s' else String c (remove ws s')
  end.

End json.

(** *** The scanner's results

    A scanner whose step is [stateError] holds an error; a step that
    answers [scanSkipSpace] was given a space byte, and one that answers
    [scanError] leaves an error in the scanner. *)

Definition scanner_inv (s : json.scanner) : Prop :=
  json.step s = json.StateError → json.err s ≠ None.

Definition step_good (c : ascii) (r : json.scanner * json.scanCode) : Prop :=
  (r.2 = json.scanSkipSpace → json.isSpace c = true)
  ∧ (r.2 = json.scanError → json.err r.1 ≠ None)
  ∧ scanner_inv r.1.

(** ** Go errors

    A non-nil value of the interface type [error], by its dynamic type:
    what [fmt.Errorf] builds without and with the verb [%w], what
    [cli.Exit] builds, and values built elsewhere. *)

(** Modelled from the spec: the type [normalize.Warning], declared in
    pkg/normalize, is the dynamic kind of a non-fatal issue; an issue has a
    message and a kind, and any kind other than [Warning] is an error. *)
Inductive error :=
| errorString (s : string)
| wrapError (msg : string) (err : error)
| exitError (err : error) (exitCode : Z)
| Warning (msg : string)
| otherError (dyn : string) (msg : string).

(** The method [Error()]. *)
Fixpoint Error (e : error) : string :=
  match e with
  | errorString s => s
  | wrapError msg _ => msg
  | exitError err _ => Error err
  | Warning msg => msg
  | otherError _ msg => msg
  end.

(** An interface value is [option error], [None] being [nil]. The type
    assertion [_, ok := err.(normalize.Warning)] gives [ok]. *)
Definition is_Warning (err : option error) : bool :=
  match err with
  | Some (Warning _) => true
  | _ => false
  end.

(** The verb [%s] applied to an [error] operand. *)
Definition fmt_s (err : option error) : string :=
  match err with
  | Some e => Error e
  | None => "%!s(<nil>)"
  end.

Definition nl : string := String "010" "".

(** ** Arguments of the commands *)

(** Modelled from the spec: the argument structs are declared outside this
    file. Their fields are the ones this file reads and writes; the loader's
    arguments are the source path, the development flag and the variables
    of the spec's Load step. The field [Variable] is spelt [Variable_]. *)

Record ExecuteDSLArgs := {
  JSFile : string;
  DevMode : bool;
  Variable_ : list string
}.

Record GetDNSConfigArgs := {
  GetDNSConfigArgs_ExecuteDSLArgs : ExecuteDSLArgs;
  JSONFile : string
}.

Record PrintJSONArgs := {
  Pretty : bool;
  Output : string
}.

Record PrintIRArgs := {
  PrintIRArgs_GetDNSConfigArgs : GetDNSConfigArgs;
  PrintIRArgs_PrintJSONArgs : PrintJSONArgs;
  Raw : bool
}.

Record CheckArgs := {
  CheckArgs_GetDNSConfigArgs : GetDNSConfigArgs
}.

Definition os_DevNull : string := "/dev/null".

Inductive stream := Stdout | Stderr.

#[export] Instance stream_eq_dec : EqDecision stream.
Proof. solve_decision. Defined.

(** ** The lines of the classifier, as the spec words them *)

Definition count_line (n : nat) : string :=
  GoString.fmt_d n +:+ " Validation errors:" +:+ nl.

Definition issue_line (err : option error) : string :=
  (if is_Warning err then "WARNING: " else "ERROR: ") +:+ fmt_s err +:+ nl.

Definition classifier_lines (errs : list (option error)) : list string :=
  match errs with
  | [] => []
  | _ :: _ => count_line (length errs) :: map issue_line errs
  end.

(** ** The world of one invocation *)

Section Pipeline.

(** [models.DNSConfig], the configuration object graph. *)
Context {DNSConfig : Type}.

(** The collaborators, each a function of its arguments: the evaluator,
    the post-processor and the validator (which work on the graph in place:
    the graph they leave is part of their result), the renderer, and the
    failures of the operating system on creating and on writing a file (a
    failed write leaves the first [n] bytes written). *)
Record Collaborators := {
  js_ExecuteJavaScript : string → bool → gmap string string → DNSConfig + error;
  rtypes_PostProcess : DNSConfig → DNSConfig * option error;
  normalize_ValidateAndNormalizeConfig : DNSConfig → DNSConfig * list (option error);
  json_Marshal : DNSConfig → string + error;
  json_quoteChar : ascii → string;
  os_Create_error : string → option error;
  os_Write_error : string → string → option (nat * error)
}.

Variable X : Collaborators.

(** A call of a collaborator or of the operating system. *)
Inductive call :=
| ExecuteJavaScript_call (file : string) (devMode : bool) (vars : gmap string string)
| PostProcess_call (cfg : DNSConfig)
| ValidateAndNormalizeConfig_call (cfg : DNSConfig)
| Marshal_call (cfg : DNSConfig)
| Create_call (name : string)
| Write_call (name : string) (b : string)
| Close_call (name : string)
| PrintWarning_call.

(** The content of the regular files, what was written to the two standard
    streams (one entry per write), where the logger and the command
    framework write, and the calls made so far. *)
Record World := {
  files : gmap string string;
  stdout : list string;
  stderr : list string;
  log_output : stream;
  cli_ErrWriter : stream;
  calls : list call
}.

Definition set_files (f : gmap string string) (w : World) : World :=
  {| files := f; stdout := stdout w; stderr := stderr w;
     log_output := log_output w; cli_ErrWriter := cli_ErrWriter w;
     calls := calls w |}.

Definition set_log_output (s : stream) (w : World) : World :=
  {| files := files w; stdout := stdout w; stderr := stderr w;
     log_output := s; cli_ErrWriter := cli_ErrWriter w; calls := calls w |}.

Definition set_cli_ErrWriter (s : stream) (w : World) : World :=
  {| files := files w; stdout := stdout w; stderr := stderr w;
     log_output := log_output w; cli_ErrWriter := s; calls := calls w |}.

Definition record_call (c : call) (w : World) : World :=
  {| files := files w; stdout := stdout w; stderr := stderr w;
     log_output := log_output w; cli_ErrWriter := cli_ErrWriter w;
     calls := calls w ++ [c] |}.

(** One write of [text] to a standard stream. *)
Definition emit (s : stream) (text : string) (w : World) : World :=
  match s with
  | Stdout =>
      {| files := files w; stdout := stdout w ++ [text]; stderr := stderr w;
         log_output := log_output w; cli_ErrWriter := cli_ErrWriter w;
         calls := calls w |}
  | Stderr =>
      {| files := files w; stdout := stdout w; stderr := stderr w ++ [text];
         log_output := log_output w; cli_ErrWriter := cli_ErrWriter w;
         calls := calls w |}
  end.

(** What was written to stream [s]. *)
Definition written (s : stream) (w : World) : list string :=
  match s with Stdout => stdout w | Stderr => stderr w end.

(** What a path holds after [content] is stored under it: the device
    [os.DevNull] keeps nothing. *)
Definition store (name content : string) (f : gmap string string)
  : gmap string string :=
  if String.eqb name os_DevNull then f else <[name := content]> f.

(** Computations over the world. *)
Definition M (A : Type) : Type := World → A * World.

#[export] Instance M_ret : MRet M := λ A (a : A) (w : World), (a, w).

#[export] Instance M_bind : MBind M :=
  λ A B (f : A → M B) (m : M A) (w : World), let '(a, w') := m w in f a w'.

Definition modify (f : World → World) : M unit := λ w, (tt, f w).

(** *** The library calls *)

Fixpoint ends_with_newline (s : string) : bool :=
  match s with
  | "" => false
  | String c "" => Ascii.eqb c "010"
  | String _ s' => ends_with_newline s'
  end.

(** [log.Printf]: the formatted text goes to the logger's output in one
    write, with a newline added when it does not end in one. The header
    the logger puts before the text is set by the process start-up and is
    left out. *)
Definition log_Printf (text : string) : M unit :=
  λ w, (tt, emit (log_output w)
              (if ends_with_newline text then text else text +:+ nl) w).

Definition log_SetOutput (s : stream) : M unit := modify (set_log_output s).

(** [fmt.Println(s)] and [fmt.Fprintf(os.Stdout, s)] for a text without
    verbs. *)
Definition fmt_Println (s : string) : M unit := modify (emit Stdout (s +:+ nl)).

Definition fmt_Fprintf (out : stream) (s : string) : M unit := modify (emit out s).

Definition ExecuteJavaScript (file : string) (devMode : bool)
    (vars : gmap string string) : M (DNSConfig + error) :=
  modify (record_call (ExecuteJavaScript_call file devMode vars));;
  mret (js_ExecuteJavaScript X file devMode vars).

Definition PostProcess (cfg : DNSConfig) : M (DNSConfig * option error) :=
  modify (record_call (PostProcess_call cfg));;
  mret (rtypes_PostProcess X cfg).

Definition ValidateAndNormalizeConfig (cfg : DNSConfig)
  : M (DNSConfig * list (option error)) :=
  modify (record_call (ValidateAndNormalizeConfig_call cfg));;
  mret (normalize_ValidateAndNormalizeConfig X cfg).

Definition rfc4183_PrintWarning : M unit :=
  modify (record_call PrintWarning_call).

Definition Marshal (v : DNSConfig) : M (string + error) :=
  modify (record_call (Marshal_call v));;
  mret (json_Marshal X v).

(** [json.MarshalIndent]: [Marshal], then the indenter on its bytes. *)
Definition MarshalIndent (v : DNSConfig) (prefix indent : string)
  : M (string + error) :=
  r ← Marshal v;
  match r with
  | inr err => mret (inr err)
  | inl b =>
      match json.appendIndent (json_quoteChar X) "" b prefix indent with
      | (_, Some e) => mret (inr (otherError "*json.SyntaxError" (json.msg e)))
      | (b2, None) => mret (inl b2)
      end
  end.

(** [os.Create]: the file is created or truncated. *)
Definition os_Create (name : string) : M (string + error) :=
  modify (record_call (Create_call name));;
  match os_Create_error X name with
  | Some err => mret (inr err)
  | None => modify (λ w, set_files (store name "" (files w)) w);; mret (inl name)
  end.

(** [f.Write(b)] on a file just created. *)
Definition File_Write (f : string) (b : string) : M (option error) :=
  modify (record_call (Write_call f b));;
  match os_Write_error X f b with
  | Some (n, err) =>
      modify (λ w, set_files (store f (GoString.take n b) (files w)) w);;
      mret (Some err)
  | None => modify (λ w, set_files (store f b (files w)) w);; mret None
  end.

Definition File_Close (f : string) : M unit :=
  modify (record_call (Close_call f)).

(** *** commands/printIR.go *)

(** [PrintValidationErrors]: the range loop, with the named result
    [fatal] as its accumulator. *)
Fixpoint PrintValidationErrors_loop (errs : list (option error)) (fatal : bool)
  : M bool :=
  match errs with
  | [] => mret fatal
  | err :: errs' =>
      if is_Warning err then
        log_Printf ("WARNING: " +:+ fmt_s err +:+ nl);;
        PrintValidationErrors_loop errs' fatal
      else
        log_Printf ("ERROR: " +:+ fmt_s err +:+ nl);;
        PrintValidationErrors_loop errs' true
  end.

Definition PrintValidationErrors (errs : list (option error)) : M bool :=
  if (length errs =? 0)%nat then mret false
  else
    log_Printf (GoString.fmt_d (length errs) +:+ " Validation errors:" +:+ nl);;
    PrintValidationErrors_loop errs false.

Definition ExecuteDSL (args : ExecuteDSLArgs) : M (DNSConfig + error) :=
  if String.eqb (JSFile args) "" then
    mret (inr (errorString "no config specified"))
  else
    r ← ExecuteJavaScript (JSFile args) (DevMode args)
          (stringSliceToMap (Variable_ args));
    match r with
    | inr err =>
        mret (inr (wrapError ("executing " +:+ JSFile args +:+ ": " +:+ Error err) err))
    | inl dnsConfig =>
        r ← PostProcess dnsConfig;
        match r with
        | (_, Some err) => mret (inr err)
        | (dnsConfig, None) => mret (inl dnsConfig)
        end
    end.

(** Modelled from the spec: [GetDNSConfig] is declared outside this file;
    the spec's Load step runs the Config Loader on the source path, the
    development flag and the variables, and hands on its graph or its
    error. *)
Definition GetDNSConfig (args : GetDNSConfigArgs) : M (DNSConfig + error) :=
  ExecuteDSL (GetDNSConfigArgs_ExecuteDSLArgs args).

(** [PrintJSON]; the deferred [f.Close()] runs when the function returns. *)
Definition PrintJSON (args : PrintJSONArgs) (config : DNSConfig)
  : M (option error) :=
  r ← (if Pretty args then MarshalIndent config "" "  " else Marshal config);
  match r with
  | inr err => mret (Some err)
  | inl dat =>
      if negb (String.eqb (Output args) "") then
        r ← os_Create (Output args);
        match r with
        | inr err => mret (Some err)
        | inl f =>
            err ← File_Write f dat;
            File_Close f;;
            mret err
        end
      else
        fmt_Println dat;;
        mret None
  end.

(** [PrintIR]; the validator works on [cfg] in place, so the graph it
    leaves is the one serialized. *)
Definition PrintIR (args : PrintIRArgs) : M (option error) :=
  r ← GetDNSConfig (PrintIRArgs_GetDNSConfigArgs args);
  match r with
  | inr err => mret (Some err)
  | inl cfg =>
      if negb (Raw args) then
        r ← ValidateAndNormalizeConfig cfg;
        let '(cfg, errs) := r in
        fatal ← PrintValidationErrors errs;
        if (fatal : bool) then mret (Some (errorString "exiting due to validation errors"))
        else PrintJSON (PrintIRArgs_PrintJSONArgs args) cfg
      else PrintJSON (PrintIRArgs_PrintJSONArgs args) cfg
  end.

(** [exit]: [cli.Exit(err, 1)] for a non-nil error. *)
Definition exit (err : option error) : option error :=
  match err with
  | None => None
  | Some e => Some (exitError e 1)
  end.

(** The action of the command print-ir. *)
Definition print_ir_Action (args : PrintIRArgs) : M (option error) :=
  err ← PrintIR args;
  mret (exit err).

(** The action of the command check. [pargs] starts as the zero value,
    so its [Raw] is false. *)
Definition check_Action (args : CheckArgs) : M (option error) :=
  let pargs :=
    {| PrintIRArgs_GetDNSConfigArgs :=
         {| GetDNSConfigArgs_ExecuteDSLArgs :=
              {| JSFile := JSFile (GetDNSConfigArgs_ExecuteDSLArgs (CheckArgs_GetDNSConfigArgs args));
                 DevMode := DevMode (GetDNSConfigArgs_ExecuteDSLArgs (CheckArgs_GetDNSConfigArgs args));
                 Variable_ := Variable_ (GetDNSConfigArgs_ExecuteDSLArgs (CheckArgs_GetDNSConfigArgs args)) |};
            JSONFile := JSONFile (CheckArgs_GetDNSConfigArgs args) |};
       PrintIRArgs_PrintJSONArgs := {| Pretty := false; Output := os_DevNull |};
       Raw := false |} in
  modify (set_cli_ErrWriter Stdout);;
  log_SetOutput Stdout;;
  e ← PrintIR pargs;
  let err := exit e in
  rfc4183_PrintWarning;;
  match err with
  | None => fmt_Fprintf Stdout ("No errors." +:+ nl)
  | Some _ => mret tt
  end;;
  mret err.

(** *** The effects in explicit form

    The same functions with the world written out step by step; the
    equations that relate them to the definitions above are proved below. *)

(** The world after the lines [ls] went to the logger, one write each. *)
Definition logged (ls : list string) (w : World) : World :=
  fold_left (λ w l, emit (log_output w) l w) ls w.

(** The bytes [dat] of [PrintJSON], or the error of the rendering. *)
Definition rendered (pretty : bool) (cfg : DNSConfig) : string + error :=
  if pretty then
    match json_Marshal X cfg with
    | inr err => inr err
    | inl b =>
        match json.appendIndent (json_quoteChar X) "" b "" "  " with
        | (_, Some e) => inr (otherError "*json.SyntaxError" (json.msg e))
        | (b2, None) => inl b2
        end
    end
  else json_Marshal X cfg.

(** The world after [dat] went to the file [out]: created, then written
    as far as the operating system lets it, then closed. *)
Definition after_write (out dat : string) (w : World) : option error * World :=
  let w2 := record_call (Create_call out) w in
  match os_Create_error X out with
  | Some err => (Some err, w2)
  | None =>
      let w3 := record_call (Write_call out dat)
                  (set_files (store out "" (files w2)) w2) in
      match os_Write_error X out dat with
      | Some (n, err) =>
          (Some err,
           record_call (Close_call out)
             (set_files (store out (GoString.take n dat) (files w3)) w3))
      | None =>
          (None,
           record_call (Close_call out) (set_files (store out dat (files w3)) w3))
      end
  end.

(** The calls the loader makes. *)
Definition is_load (c : call) : bool :=
  match c with
  | ExecuteJavaScript_call _ _ _ | PostProcess_call _ => true
  | _ => false
  end.

(** The world after the loader, by what the evaluator and the
    post-processor answer. *)
Definition after_load (args : ExecuteDSLArgs) (w : World)
  : (DNSConfig + error) * World :=
  if String.eqb (JSFile args) "" then
    (inr (errorString "no config specified"), w)
  else
    let vars := stringSliceToMap (Variable_ args) in
    let w1 := record_call (ExecuteJavaScript_call (JSFile args) (DevMode args) vars) w in
    match js_ExecuteJavaScript X (JSFile args) (DevMode args) vars with
    | inr err =>
        (inr (wrapError ("executing " +:+ JSFile args +:+ ": " +:+ Error err) err), w1)
    | inl cfg0 =>
        let w2 := record_call (PostProcess_call cfg0) w1 in
        match rtypes_PostProcess X cfg0 with
        | (_, Some err) => (inr err, w2)
        | (cfg1, None) => (inl cfg1, w2)
        end
    end.

(** The world after [PrintIR], by the answers of the collaborators. *)
Definition after_PrintIR (args : PrintIRArgs) (w : World)
  : option error * World :=
  let l := GetDNSConfig (PrintIRArgs_GetDNSConfigArgs args) w in
  match l.1 with
  | inr err => (Some err, l.2)
  | inl cfg =>
      if Raw args then PrintJSON (PrintIRArgs_PrintJSONArgs args) cfg l.2
      else
        let w2 := record_call (ValidateAndNormalizeConfig_call cfg) l.2 in
        let v := normalize_ValidateAndNormalizeConfig X cfg in
        let w3 := logged (classifier_lines v.2) w2 in
        if existsb (λ e, negb (is_Warning e)) v.2
        then (Some (errorString "exiting due to validation errors"), w3)
        else PrintJSON (PrintIRArgs_PrintJSONArgs args) v.1 w3
  end.

End Pipeline.

Arguments Collaborators : clear implicits.
Arguments call : clear implicits.
Arguments World : clear implicits.
Arguments M : clear implicits.

(** ** Counting calls *)

Definition is_ExecuteJavaScript {DNSConfig : Type} (c : call DNSConfig) : bool :=
  match c with ExecuteJavaScript_call _ _ _ => true | _ => false end.

Definition is_Validate {DNSConfig : Type} (c : call DNSConfig) : bool :=
  match c with ValidateAndNormalizeConfig_call _ => true | _ => false end.

Definition is_PrintWarning {DNSConfig : Type} (c : call DNSConfig) : bool :=
  match c with PrintWarning_call => true | _ => false end.

(** The calls [PrintJSON] makes. *)
Definition is_serialize {DNSConfig : Type} (c : call DNSConfig) : bool :=
  match c with
  | Marshal_call _ | Create_call _ | Write_call _ _ | Close_call _ => true
  | _ => false
  end.

Fixpoint count_calls {DNSConfig : Type} (p : call DNSConfig → bool)
    (l : list (call DNSConfig)) : nat :=
  match l with
  | [] => 0
  | c :: l' => ((if p c then 1 else 0) + count_calls p l')%nat
  end.

(** ** A concrete invocation

    A graph is taken to be the list of its domain names; the evaluator
    fails on one source and answers one domain otherwise, the validator
    warns about every graph and rejects two-domain ones, and the renderer
    writes the names as a JSON object. These collaborators serve to run the
    pipeline on examples. *)

Definition quote : string := String "034" "".

Definition demo_Marshal (cfg : list string) : string + error :=
  match cfg with
  | [d] => inl ("{" +:+ quote +:+ "domains" +:+ quote +:+ ":[{" +:+ quote
                +:+ "name" +:+ quote +:+ ":" +:+ quote +:+ d +:+ quote
                +:+ "," +:+ quote +:+ "records" +:+ quote +:+ ":[]}]}")
  | [] => inl ("{" +:+ quote +:+ "domains" +:+ quote +:+ ":[]}")
  | _ => inr (otherError "*json.UnsupportedValueError" "json: unsupported value")
  end.

Definition demo : Collaborators (list string) :=
  {| js_ExecuteJavaScript := λ file _ vars,
       if String.eqb file "broken.js" then inr (otherError "*errors.errorString" "boom")
       else if String.eqb file "two.js" then inl ["a.example"; "b.example"]
       else inl [default "example.com" (vars !! "domain")];
     rtypes_PostProcess := λ cfg, (cfg, None);
     normalize_ValidateAndNormalizeConfig := λ cfg,
       match cfg with
       | [_; _] => (cfg, [Some (Warning "no NS records"); Some (errorString "duplicate name")])
       | _ => (cfg, [Some (Warning "no NS records")])
       end;
     json_Marshal := demo_Marshal;
     json_quoteChar := λ c, "'" +:+ String c "'";
     os_Create_error := λ name,
       if String.eqb name "/readonly/out.json"
       then Some (otherError "*fs.PathError" "permission denied") else None;
     os_Write_error := λ _ _, None |}.

Definition demo_world : World (list string) :=
  {| files := {["out.json" := "old content"]}; stdout := []; stderr := [];
     log_output := Stderr; cli_ErrWriter := Stderr; calls := [] |}.

Definition demo_args (file : string) (vars : list string) (pretty : bool)
    (out : string) (raw : bool) : PrintIRArgs :=
  {| PrintIRArgs_GetDNSConfigArgs :=
       {| GetDNSConfigArgs_ExecuteDSLArgs :=
            {| JSFile := file; DevMode := false; Variable_ := vars |};
          JSONFile := "" |};
     PrintIRArgs_PrintJSONArgs := {| Pretty := pretty; Output := out |};
     Raw := raw |}.

(** ** Further vocabulary for the properties below *)


Definition is_Create {DNSConfig : Type} (c : call DNSConfig) : bool :=
  match c with Create_call _ => true | _ => false end.

Definition is_Write {DNSConfig : Type} (c : call DNSConfig) : bool :=
  match c with Write_call _ _ => true | _ => false end.

Definition is_Close {DNSConfig : Type} (c : call DNSConfig) : bool :=
  match c with Close_call _ => true | _ => false end.

Definition is_Marshal {DNSConfig : Type} (c : call DNSConfig) : bool :=
  match c with Marshal_call _ => true | _ => false end.

Definition is_PostProcess {DNSConfig : Type} (c : call DNSConfig) : bool :=
  match c with PostProcess_call _ => true | _ => false end.

(** The collaborators of the concrete invocation, with a post-processor
    that fails, and with a disk that takes five bytes. *)
Definition demo_post_fails : Collaborators (list string) :=
  {| js_ExecuteJavaScript := js_ExecuteJavaScript demo;
     rtypes_PostProcess := λ cfg, (cfg, Some (otherError "*errors.errorString" "bad record"));
     normalize_ValidateAndNormalizeConfig := normalize_ValidateAndNormalizeConfig demo;
     json_Marshal := json_Marshal demo;
     json_quoteChar := json_quoteChar demo;
     os_Create_error := os_Create_error demo;
     os_Write_error := os_Write_error demo |}.

Definition demo_short_write : Collaborators (list string) :=
  {| js_ExecuteJavaScript := js_ExecuteJavaScript demo;
     rtypes_PostProcess := rtypes_PostProcess demo;
     normalize_ValidateAndNormalizeConfig := normalize_ValidateAndNormalizeConfig demo;
     json_Marshal := json_Marshal demo;
     json_quoteChar := json_quoteChar demo;
     os_Create_error := os_Create_error demo;
     os_Write_error := λ _ _, Some (5%nat, otherError "*fs.PathError" "no space left on device") |}.
Section VariableMapper.

Lemma string_app_nil_l (b : string) : "" +:+ b = b.
Proof. reflexivity. Qed.

Lemma string_app_cons (c : ascii) (a b : string) :
  String c a +:+ b = String c (a +:+ b).
Proof. reflexivity. Qed.

Lemma prefix_eq_cons (s : string) :
  String.prefix "=" s = true ↔ ∃ s', s = String "="%char s'.
Proof.
  split.
  - destruct s as [|c s']; cbn [String.prefix]; [done|].
    destruct (ascii_dec "="%char c) as [<-|]; [eauto|done].
  - intros [s' ->]. cbn [String.prefix].
    destruct (ascii_dec "="%char "="%char); [|congruence]. by destruct s'.
Qed.

Lemma prefix_eq_false (c : ascii) (s : string) :
  String.prefix "=" (String c s) = false → c ≠ "="%char.
Proof.
  intros Hp ->.
  assert (String.prefix "=" (String "=" s) = true) as Hq
    by (apply prefix_eq_cons; eauto).
  congruence.
Qed.

Lemma Index_None_no_eq (s : string) :
  GoString.Index s "=" = None → ¬ has_eq s.
Proof.
  induction s as [|c s IH]; intros HI [a [b Hab]].
  - destruct a; discriminate.
  - cbn [GoString.Index] in HI.
    destruct (String.prefix "=" (String c s)) eqn:Hp; [discriminate|].
    apply prefix_eq_false in Hp.
    destruct (GoString.Index s "=") eqn:Hs; [discriminate|].
    destruct a as [|c' a].
    + rewrite string_app_nil_l, string_app_cons in Hab. congruence.
    + rewrite string_app_cons in Hab. injection Hab as -> ->.
      apply IH; [done|]. by exists a, b.
Qed.

Lemma Index_Some_cut (s : string) (m : nat) :
  GoString.Index s "=" = Some m →
  s = GoString.take m s +:+ "=" +:+ GoString.drop (m + 1) s
  ∧ ¬ has_eq (GoString.take m s).
Proof.
  revert m. induction s as [|c s IH]; intros m HI.
  - discriminate.
  - cbn [GoString.Index] in HI.
    destruct (String.prefix "=" (String c s)) eqn:Hp.
    + injection HI as <-. apply prefix_eq_cons in Hp as [s' Hs'].
      injection Hs' as -> ->. split; [done|].
      intros [a [b Hab]]. destruct a; discriminate.
    + apply prefix_eq_false in Hp.
      destruct (GoString.Index s "=") as [m'|] eqn:Hs; [|discriminate].
      injection HI as <-. destruct (IH m' eq_refl) as [Hcut Hno].
      split.
      * cbn [GoString.take GoString.drop Nat.add]. rewrite string_app_cons.
        f_equal. exact Hcut.
      * cbn [GoString.take]. intros [a [b Hab]].
        destruct a as [|c' a].
        -- rewrite string_app_nil_l, string_app_cons in Hab. congruence.
        -- rewrite string_app_cons in Hab. injection Hab as -> Hab.
           apply Hno. by exists a, b.
Qed.

Lemma Index_cut_first (k v : string) :
  ¬ has_eq k →
  GoString.Index (k +:+ "=" +:+ v) "=" = Some (String.length k).
Proof.
  induction k as [|c k IH]; intros Hno.
  - rewrite string_app_nil_l, string_app_cons, string_app_nil_l. cbn [GoString.Index].
    assert (String.prefix "=" (String "=" v) = true) as ->
      by (apply prefix_eq_cons; eauto).
    done.
  - rewrite string_app_cons. cbn [GoString.Index String.length].
    destruct (String.prefix "=" (String c (k +:+ "=" +:+ v))) eqn:Hp.
    + apply prefix_eq_cons in Hp as [s' Hs']. injection Hs' as -> _.
      exfalso. apply Hno. by exists "", k.
    + rewrite IH; [done|].
      intros [a [b ->]]. apply Hno. by exists (String c a), b.
Qed.

Lemma take_app_length (k r : string) :
  GoString.take (String.length k) (k +:+ r) = k.
Proof.
  induction k as [|c k IH]; [by destruct r|].
  rewrite string_app_cons. cbn [String.length GoString.take]. by f_equal.
Qed.

Lemma drop_app_length (k r : string) (n : nat) :
  GoString.drop (String.length k + n) (k +:+ r) = GoString.drop n r.
Proof.
  induction k as [|c k IH]; [done|].
  rewrite string_app_cons. cbn [String.length GoString.drop Nat.add]. exact IH.
Qed.

Lemma string_length_app (a b : string) :
  String.length (a +:+ b) = (String.length a + String.length b)%nat.
Proof.
  induction a as [|c a IH]; [done|].
  rewrite string_app_cons. cbn [String.length Nat.add]. by f_equal.
Qed.

(** What [SplitN values "=" 2] returns, by the shape of the token. *)
Lemma SplitN_no_eq (t : string) :
  ¬ has_eq t → GoString.SplitN t "=" 2 = [t].
Proof.
  intros Hno. unfold GoString.SplitN.
  destruct (Nat.min 2 (String.length t + 1) - 1)%nat; cbn; [done|].
  destruct (GoString.Index t "=") as [m|] eqn:HI; [|done].
  exfalso. apply Hno. destruct (Index_Some_cut _ _ HI) as [Hcut _].
  rewrite Hcut. by eexists _, _.
Qed.

Lemma SplitN_first_eq (k v : string) :
  ¬ has_eq k → GoString.SplitN (k +:+ "=" +:+ v) "=" 2 = [k; v].
Proof.
  intros Hno. unfold GoString.SplitN.
  assert (Nat.min 2 (String.length (k +:+ "=" +:+ v) + 1) - 1 = 1)%nat as ->.
  { rewrite !string_length_app. change (String.length "=") with 1%nat. lia. }
  cbn [GoString.genSplit_loop]. rewrite Index_cut_first by done.
  rewrite take_app_length.
  change (String.length "=") with 1%nat.
  rewrite drop_app_length. done.
Qed.

Lemma SplitN_cases (t : string) :
  (¬ has_eq t ∧ GoString.SplitN t "=" 2 = [t])
  ∨ (∃ k v, t = k +:+ "=" +:+ v ∧ ¬ has_eq k
            ∧ GoString.SplitN t "=" 2 = [k; v]).
Proof.
  destruct (GoString.Index t "=") as [m|] eqn:HI.
  - right. destruct (Index_Some_cut _ _ HI) as [Hcut Hno].
    eexists _, _. split; [exact Hcut|]. split; [done|].
    rewrite Hcut at 1. by apply SplitN_first_eq.
  - left. apply Index_None_no_eq in HI. split; [done|].
    by apply SplitN_no_eq.
Qed.

End VariableMapper.

Section VariableMapperSpec.

Lemma cut_unique (k1 v1 k2 v2 : string) :
  ¬ has_eq k1 → ¬ has_eq k2 →
  k1 +:+ "=" +:+ v1 = k2 +:+ "=" +:+ v2 → k1 = k2 ∧ v1 = v2.
Proof.
  intros H1 H2 Heq.
  pose proof (SplitN_first_eq k1 v1 H1) as E1.
  pose proof (SplitN_first_eq k2 v2 H2) as E2.
  rewrite Heq in E1. rewrite E1 in E2. by injection E2.
Qed.

Lemma stringSliceToMap_snoc (l : list string) (t : string) :
  stringSliceToMap (l ++ [t]) = stringSliceToMap_step (stringSliceToMap l) t.
Proof. unfold stringSliceToMap. by rewrite fold_left_app. Qed.

Lemma step_no_eq (m : gmap string string) (t : string) :
  ¬ has_eq t → stringSliceToMap_step m t = m.
Proof. intros H. unfold stringSliceToMap_step. by rewrite SplitN_no_eq. Qed.

Lemma step_first_eq (m : gmap string string) (k v : string) :
  ¬ has_eq k → stringSliceToMap_step m (k +:+ "=" +:+ v) = <[k := v]> m.
Proof. intros H. unfold stringSliceToMap_step. by rewrite SplitN_first_eq. Qed.

Lemma fold_step_drop (l1 l2 : list string) (t : string) (m : gmap string string) :
  ¬ has_eq t →
  fold_left stringSliceToMap_step (l1 ++ t :: l2) m
  = fold_left stringSliceToMap_step (l1 ++ l2) m.
Proof.
  intros H. rewrite !fold_left_app. cbn [fold_left]. by rewrite step_no_eq.
Qed.

Lemma last_binding_snoc_other (l : list string) (t k v : string) :
  (¬ has_eq k → ∀ v', t ≠ k +:+ "=" +:+ v') →
  last_binding (l ++ [t]) k v ↔ last_binding l k v.
Proof.
  intros Ht. split.
  - intros (l1 & l2 & Hl & Hk & Hlast).
    destruct (decide (l2 = [])) as [->|Hne].
    + apply app_inj_tail in Hl as [_ ->]. by destruct (Ht Hk v).
    + destruct (exists_last Hne) as (l2' & t' & ->).
      rewrite app_comm_cons, app_assoc in Hl.
      apply app_inj_tail in Hl as [-> ->].
      exists l1, l2'. split; [done|]. split; [done|].
      intros t0 v' Hin. apply Hlast. apply elem_of_app. by left.
  - intros (l1 & l2 & -> & Hk & Hlast).
    exists l1, (l2 ++ [t]). split; [by rewrite <- app_assoc|]. split; [done|].
    intros t0 v' [Hin| ->%list_elem_of_singleton]%elem_of_app;
      [by apply Hlast|by apply Ht].
Qed.

Lemma last_binding_snoc_same (l : list string) (k v0 v : string) :
  ¬ has_eq k →
  last_binding (l ++ [k +:+ "=" +:+ v0]) k v ↔ v = v0.
Proof.
  intros Hk. split.
  - intros (l1 & l2 & Hl & _ & Hlast).
    destruct (decide (l2 = [])) as [->|Hne].
    + apply app_inj_tail in Hl as [_ Heq].
      by apply cut_unique in Heq as [_ ->].
    + destruct (exists_last Hne) as (l2' & t' & ->).
      rewrite app_comm_cons, app_assoc in Hl.
      apply app_inj_tail in Hl as [_ <-].
      destruct (Hlast (k +:+ "=" +:+ v0) v0); [|done].
      apply elem_of_app. right. by apply list_elem_of_singleton.
  - intros ->. exists l, []. split; [done|]. split; [done|].
    intros t v' Hin. by apply elem_of_nil in Hin.
Qed.

Lemma stringSliceToMap_lookup (l : list string) (k v : string) :
  stringSliceToMap l !! k = Some v ↔ last_binding l k v.
Proof.
  revert k v. induction l as [|t l IH] using rev_ind; intros k v.
  - unfold stringSliceToMap. cbn [fold_left]. rewrite lookup_empty. split; [done|].
    intros (l1 & l2 & Hl & _). by destruct l1.
  - rewrite stringSliceToMap_snoc.
    destruct (SplitN_cases t) as [[Hno _]|(k0 & v0 & -> & Hk0 & _)].
    + rewrite step_no_eq by done. rewrite IH.
      symmetry. apply last_binding_snoc_other.
      intros _ v' ->. apply Hno. by exists k, v'.
    + rewrite step_first_eq by done.
      destruct (decide (k0 = k)) as [->|Hne].
      * rewrite lookup_insert_eq, last_binding_snoc_same by done.
        split; [by intros [= ->]|by intros ->].
      * rewrite lookup_insert_ne by done. rewrite IH.
        symmetry. apply last_binding_snoc_other.
        intros Hk v' Heq. by apply cut_unique in Heq as [? _].
Qed.

End VariableMapperSpec.

(** C5. [stringSliceToMap] starts from the empty map; a token without [=]
    is discarded wherever it stands; a token [k=v], cut at its first [=]
    (so [k] has no [=], [v] may have some), binds [k] to [v] over the map of
    the tokens before it; hence the value of a key is the one of the last
    token that has this key. *)
Theorem stringSliceToMap_spec :
  stringSliceToMap [] = ∅
  ∧ (∀ l1 l2 t, ¬ has_eq t →
       stringSliceToMap (l1 ++ t :: l2) = stringSliceToMap (l1 ++ l2))
  ∧ (∀ l k v, ¬ has_eq k →
       stringSliceToMap (l ++ [k +:+ "=" +:+ v]) = <[k := v]> (stringSliceToMap l))
  ∧ (∀ l k v, stringSliceToMap l !! k = Some v ↔
       ∃ l1 l2, l = l1 ++ (k +:+ "=" +:+ v) :: l2 ∧ ¬ has_eq k
                ∧ ∀ t v', t ∈ l2 → t ≠ k +:+ "=" +:+ v').
Proof.
  split; [done|]. split; [|split].
  - intros l1 l2 t H. by apply fold_step_drop.
  - intros l k v H. rewrite stringSliceToMap_snoc. by apply step_first_eq.
  - apply stringSliceToMap_lookup.
Qed.

Example stringSliceToMap_run :
  stringSliceToMap ["a=1"; "junk"; "b=x=y"; "a=2"; "=e"; ""]
  = <["" := "e"]> (<["a" := "2"]> (<["b" := "x=y"]> (<["a" := "1"]> ∅))).
Proof. by vm_compute. Qed.

(** ** The indenter only adds and drops white space *)

Section Indent.

Variable quoteChar : ascii → string.

(** The white space that a reader removes: any set of bytes that holds the
    four JSON space bytes. *)
Variable ws : ascii → bool.
Hypothesis ws_isSpace : ∀ c, json.isSpace c = true → ws c = true.

Lemma remove_app (a b : string) :
  json.remove ws (a +:+ b) = json.remove ws a +:+ json.remove ws b.
Proof.
  induction a as [|c a IH]; [done|].
  rewrite string_app_cons. cbn [json.remove]. destruct (ws c); [done|].
  by rewrite string_app_cons, IH.
Qed.

Lemma string_app_nil_r (a : string) : a +:+ "" = a.
Proof. induction a as [|c a IH]; [done|]. by rewrite string_app_cons, IH. Qed.

Lemma string_app_assoc (a b c : string) : (a +:+ b) +:+ c = a +:+ b +:+ c.
Proof. induction a as [|x a IH]; [done|]. by rewrite !string_app_cons, IH. Qed.

Lemma remove_space_byte (c : ascii) :
  json.isSpace c = true → json.remove ws (String c "") = "".
Proof. intros H. cbn [json.remove]. by rewrite (ws_isSpace c H). Qed.

Lemma remove_repeat (n : nat) (indent : string) :
  json.remove ws indent = "" → json.remove ws (json.repeat_string n indent) = "".
Proof.
  intros H. induction n as [|n IH]; [done|].
  cbn [json.repeat_string]. by rewrite remove_app, H, IH.
Qed.

Lemma remove_appendNewline (dst prefix indent : string) (depth : Z) :
  json.remove ws prefix = "" → json.remove ws indent = "" →
  json.remove ws (json.appendNewline dst prefix indent depth) = json.remove ws dst.
Proof.
  intros Hp Hi. unfold json.appendNewline.
  rewrite !remove_app, Hp, remove_repeat by done.
  rewrite remove_space_byte by done. by rewrite !string_app_nil_r.
Qed.

Lemma remove_push (dst : string) (c : ascii) :
  json.remove ws (json.push dst c)
  = json.remove ws dst +:+ json.remove ws (String c "").
Proof. unfold json.push. apply remove_app. Qed.

(** *** The scanner's results *)

Ltac good_split :=
  unfold step_good, scanner_inv; cbn [fst snd json.step json.err json.set_step
    json.set_err json.set_endTop json.set_parseState json.set_bytes];
  repeat split; intros; try done; try congruence; try (by auto).

Ltac good_cases :=
  repeat match goal with
    | |- context [if ?b then _ else _] => destruct b eqn:?
    | |- context [match ?x with _ => _ end] => destruct x eqn:?
    end.

Lemma good_error (s : json.scanner) (c : ascii) (context : string) :
  step_good c (json.error quoteChar s c context).
Proof. unfold json.error. good_split. Qed.

Lemma inv_fst_error (s : json.scanner) (c : ascii) (context : string) :
  scanner_inv (json.error quoteChar s c context).1.
Proof. unfold json.error. good_split. Qed.

Lemma inv_set_step (f : json.stepFn) (s : json.scanner) :
  f ≠ json.StateError → scanner_inv (json.set_step f s).
Proof. intros H. unfold scanner_inv. cbn. congruence. Qed.

Lemma good_pushParseState (s : json.scanner) (c : ascii)
    (p : json.parseCode) (v : json.scanCode) :
  scanner_inv s → v ≠ json.scanSkipSpace → v ≠ json.scanError →
  step_good c (json.pushParseState quoteChar s c p v).
Proof.
  intros Hs Hv1 Hv2. unfold json.pushParseState.
  cbn [json.parseState json.set_parseState].
  destruct (_ <=? _); [|apply good_error].
  revert Hs. good_split.
Qed.

Lemma inv_popParseState (s : json.scanner) : scanner_inv (json.popParseState s).
Proof.
  unfold json.popParseState. cbn [json.parseState json.set_parseState].
  destruct (tail _); good_split.
Qed.

Lemma good_stateEndTop (s : json.scanner) (c : ascii) :
  scanner_inv s → step_good c (json.stateEndTop quoteChar s c).
Proof.
  intros Hs. unfold json.stateEndTop.
  destruct (json.isSpace c); cbn [negb].
  - revert Hs. good_split.
  - pose proof (inv_fst_error s c "after top-level value") as H.
    revert H. good_split.
Qed.

Lemma good_stateEndValue (s : json.scanner) (c : ascii) :
  scanner_inv s → step_good c (json.stateEndValue quoteChar s c).
Proof.
  intros Hs. unfold json.stateEndValue.
  destruct (json.parseState s) as [|ps rest] eqn:Hps.
  - apply good_stateEndTop. by apply inv_set_step.
  - destruct (json.isSpace c) eqn:Hsp; [good_split|].
    pose proof (inv_popParseState s) as Hpop.
    destruct ps; good_cases; try apply good_error;
      revert Hpop; good_split.
Qed.

Lemma good_stateBeginValue (s : json.scanner) (c : ascii) :
  scanner_inv s → step_good c (json.stateBeginValue quoteChar s c).
Proof.
  intros Hs. unfold json.stateBeginValue.
  destruct (json.isSpace c) eqn:Hsp; [revert Hs; good_split|].
  good_cases; try apply good_error;
    try (apply good_pushParseState; [by apply inv_set_step|done|done]);
    good_split.
Qed.

Lemma good_stateBeginString (s : json.scanner) (c : ascii) :
  scanner_inv s → step_good c (json.stateBeginString quoteChar s c).
Proof.
  intros Hs. unfold json.stateBeginString.
  destruct (json.isSpace c) eqn:Hsp; [revert Hs; good_split|].
  good_cases; try apply good_error; good_split.
Qed.

Lemma good_simple (s : json.scanner) (c : ascii) (b : bool)
    (next : json.stepFn) (context : string) :
  next ≠ json.StateError →
  step_good c (if b then (json.set_step next s, json.scanContinue)
          else json.error quoteChar s c context).
Proof. intros Hn. destruct b; [good_split|apply good_error]. Qed.

Lemma good_call_step (s : json.scanner) (c : ascii) :
  scanner_inv s → step_good c (json.call_step quoteChar s c).
Proof.
  intros Hs. unfold json.call_step.
  destruct (json.step s) eqn:Hstep.
  - unfold json.stateBeginValueOrEmpty.
    destruct (json.isSpace c) eqn:Hsp; [revert Hs; good_split|].
    destruct (json.byte_is c "]");
      [by apply good_stateEndValue|by apply good_stateBeginValue].
  - by apply good_stateBeginValue.
  - unfold json.stateBeginStringOrEmpty.
    destruct (json.isSpace c) eqn:Hsp; [revert Hs; good_split|].
    destruct (json.byte_is c "}"); [|by apply good_stateBeginString].
    apply good_stateEndValue. revert Hs. good_split.
  - by apply good_stateBeginString.
  - by apply good_stateEndValue.
  - by apply good_stateEndTop.
  - unfold json.stateInString. good_cases; try apply good_error;
      revert Hs; good_split.
  - unfold json.stateInStringEsc. good_cases; try apply good_error; good_split.
  - by apply good_simple.
  - by apply good_simple.
  - by apply good_simple.
  - by apply good_simple.
  - unfold json.stateNeg. good_cases; try apply good_error; good_split.
  - unfold json.state1, json.state0.
    good_cases; try (by apply good_stateEndValue); good_split.
  - unfold json.state0.
    good_cases; try (by apply good_stateEndValue); good_split.
  - by apply good_simple.
  - unfold json.stateDot0.
    good_cases; try (by apply good_stateEndValue); revert Hs; good_split.
  - unfold json.stateE, json.stateESign.
    good_cases; try apply good_error; good_split.
  - by apply good_simple.
  - unfold json.stateE0.
    good_cases; try (by apply good_stateEndValue); revert Hs; good_split.
  - by apply good_simple.
  - by apply good_simple.
  - by apply good_simple.
  - by apply good_simple.
  - by apply good_simple.
  - by apply good_simple.
  - by apply good_simple.
  - by apply good_simple.
  - by apply good_simple.
  - by apply good_simple.
  - unfold json.stateError. specialize (Hs Hstep). revert Hs Hstep. good_split.
Qed.

Lemma inv_set_bytes (n : Z) (s : json.scanner) :
  scanner_inv s → scanner_inv (json.set_bytes n s).
Proof. unfold scanner_inv. cbn. auto. Qed.

Lemma inv_newScanner : scanner_inv json.newScanner.
Proof. unfold scanner_inv. cbn. congruence. Qed.

(** The loop leaves the bytes of [src] in [dst], in their order, with white
    space added or dropped in between, unless it stops at an error. *)
Lemma appendIndent_loop_remove (src prefix indent : string) :
  json.remove ws prefix = "" → json.remove ws indent = "" →
  ∀ scan needIndent depth dst scan' out,
    scanner_inv scan →
    json.appendIndent_loop quoteChar src prefix indent scan needIndent depth dst
    = (scan', out) →
    json.err scan' = None →
    json.remove ws out = json.remove ws dst +:+ json.remove ws src.
Proof.
  intros Hp Hi. induction src as [|c src IH];
    intros scan needIndent depth dst scan' out Hinv Hloop Herr.
  - cbn in Hloop. injection Hloop as _ <-. by rewrite string_app_nil_r.
  - cbn [json.appendIndent_loop] in Hloop.
    pose proof (good_call_step (json.set_bytes (json.bytes scan + 1) scan) c
                  (inv_set_bytes _ _ Hinv)) as (Hskip & Hfail & Hinv1).
    destruct (json.call_step quoteChar _ c) as [scan1 v] eqn:Hstep.
    cbn [fst snd] in Hskip, Hfail, Hinv1.
    assert (json.remove ws (String c src)
            = json.remove ws (String c "") +:+ json.remove ws src) as Hcons
      by (cbn [json.remove]; by destruct (ws c)).
    assert (json.remove ws " " = "") as Hsp by (by apply remove_space_byte).
    assert (∀ d k, json.remove ws (json.appendNewline d prefix indent k)
                   = json.remove ws d) as Hnl
      by (intros; by apply remove_appendNewline).
    destruct v;
      try (injection Hloop as <- _; by destruct Hfail);
      try (cbn [json.remove]; rewrite (ws_isSpace c (Hskip eq_refl));
           by eapply IH);
      cbn [json.isEnd negb andb] in Hloop;
      destruct needIndent; cbn [andb] in Hloop;
      repeat match type of Hloop with
        | context [if ?b then _ else _] => destruct b eqn:?
        end;
      apply IH in Hloop; try done; rewrite Hloop, Hcons;
      rewrite ?remove_push, ?Hnl, ?remove_push, ?Hnl, ?Hsp, ?string_app_nil_r,
        ?string_app_assoc; done.
Qed.

Lemma eof_error (s s' : json.scanner) :
  json.eof quoteChar s = (s', json.scanError) → json.err s' ≠ None.
Proof.
  unfold json.eof. intros H.
  repeat match type of H with
    | context [match ?x with _ => _ end] => destruct x eqn:?
    | context [if ?b then _ else _] => destruct b eqn:?
    end; injection H as <-; cbn; congruence.
Qed.

Lemma eof_no_error (s s' : json.scanner) (v : json.scanCode) :
  json.eof quoteChar s = (s', v) → v ≠ json.scanError → json.err s = None.
Proof.
  unfold json.eof. intros H Hv.
  destruct (json.err s); [|done]. injection H as _ <-. done.
Qed.

(** [appendIndent] answers either a text and no error, or the original
    [dst] and an error. *)
Lemma appendIndent_cases (dst src prefix indent : string) :
  (∃ out, json.appendIndent quoteChar dst src prefix indent = (out, None))
  ∨ (∃ e, json.appendIndent quoteChar dst src prefix indent = (dst, Some e)).
Proof.
  unfold json.appendIndent.
  destruct (json.appendIndent_loop _ _ _ _ _ _ _ _) as [scan out].
  destruct (json.eof quoteChar scan) as [scan' v] eqn:Heof.
  destruct v; try (left; by eexists).
  right. apply eof_error in Heof.
  destruct (json.err scan') as [e|]; [by exists e|done].
Qed.

Lemma appendIndent_remove (src prefix indent out : string) :
  json.remove ws prefix = "" → json.remove ws indent = "" →
  json.appendIndent quoteChar "" src prefix indent = (out, None) →
  json.remove ws out = json.remove ws src.
Proof.
  intros Hp Hi. unfold json.appendIndent.
  destruct (json.appendIndent_loop _ _ _ _ _ _ _ _) as [scan o] eqn:Hloop.
  destruct (json.eof quoteChar scan) as [scan' v] eqn:Heof.
  intros H.
  assert (v ≠ json.scanError ∧ o = out) as [Hv ->].
  { destruct v; try (injection H as ->; by split).
    injection H as _ H. by apply eof_error in Heof. }
  apply (eof_no_error _ _ _ Heof) in Hv.
  by apply (appendIndent_loop_remove _ _ _ Hp Hi _ _ _ _ _ _ inv_newScanner Hloop).
Qed.

End Indent.

Example appendIndent_run :
  json.appendIndent (λ _, "") ""
    ("{" +:+ quote +:+ "a b" +:+ quote +:+ ":[1,{},[]]," +:+ quote +:+ "c"
     +:+ quote +:+ " : null}") "" "  "
  = ("{" +:+ nl
     +:+ "  " +:+ quote +:+ "a b" +:+ quote +:+ ": [" +:+ nl
     +:+ "    1," +:+ nl
     +:+ "    {}," +:+ nl
     +:+ "    []" +:+ nl
     +:+ "  ]," +:+ nl
     +:+ "  " +:+ quote +:+ "c" +:+ quote +:+ ": null" +:+ nl
     +:+ "}", None).
Proof. by vm_compute. Qed.

Example appendIndent_unbalanced :
  (json.appendIndent (λ _, "") "" "[1,2" "" "  ").1 = ""
  ∧ (json.appendIndent (λ _, "") "" "[1,2]]" "" "  ").1 = "".
Proof. by vm_compute. Qed.

(** ** The issue classifier *)

Section Classifier.

Context {DNSConfig : Type}.
Implicit Types (w : World DNSConfig) (errs : list (option error)).

Lemma ends_with_newline_app (a b : string) :
  ends_with_newline b = true → ends_with_newline (a +:+ b) = true.
Proof.
  intros Hb. induction a as [|c a IH]; [done|].
  rewrite string_app_cons. cbn [ends_with_newline].
  destruct (a +:+ b) eqn:E; [|done].
  destruct a; [|done]. rewrite string_app_nil_l in E. by subst.
Qed.

Lemma log_Printf_newline (text : string) w :
  ends_with_newline text = true →
  log_Printf text w = (tt, emit (log_output w) text w).
Proof. intros H. unfold log_Printf. by rewrite H. Qed.

Lemma log_Printf_line3 (a b : string) w :
  log_Printf (a +:+ b +:+ nl) w = (tt, emit (log_output w) (a +:+ b +:+ nl) w).
Proof. apply log_Printf_newline. by do 2 apply ends_with_newline_app. Qed.

Lemma log_output_emit (s : stream) (text : string) w :
  log_output (emit s text w) = log_output w.
Proof. by destruct s. Qed.

Lemma logged_cons (l : string) (ls : list string) w :
  logged (l :: ls) w = logged ls (emit (log_output w) l w).
Proof. done. Qed.

Lemma written_emit (s s' : stream) (text : string) w :
  written s (emit s' text w)
  = written s w ++ (if decide (s = s') then [text] else []).
Proof. destruct s, s'; cbn; by rewrite ?app_nil_r. Qed.

Lemma logged_fields (ls : list string) w :
  files (logged ls w) = files w
  ∧ calls (logged ls w) = calls w
  ∧ log_output (logged ls w) = log_output w
  ∧ cli_ErrWriter (logged ls w) = cli_ErrWriter w
  ∧ ∀ s, written s (logged ls w)
         = written s w ++ (if decide (s = log_output w) then ls else []).
Proof.
  revert w. induction ls as [|l ls IH]; intros w.
  - cbn. repeat split. intros s. by destruct (decide _); rewrite app_nil_r.
  - rewrite logged_cons.
    destruct (IH (emit (log_output w) l w)) as (Hf & Hc & Hl & He & Hw).
    rewrite log_output_emit in *.
    rewrite Hf, Hc, Hl, He.
    repeat split; try by destruct (log_output w).
    intros s. rewrite Hw, written_emit.
    destruct (decide _); by rewrite <- app_assoc.
Qed.

(** The loop writes one line per issue, in the order of the list, and
    answers true when it started from true or met an issue that is not a
    [Warning]. *)
Lemma PrintValidationErrors_loop_eq errs (fatal : bool) w :
  PrintValidationErrors_loop errs fatal w
  = (fatal || existsb (λ e, negb (is_Warning e)) errs,
     logged (map issue_line errs) w).
Proof.
  revert fatal w. induction errs as [|e errs IH]; intros fatal w.
  - cbn. by rewrite orb_false_r.
  - cbn [PrintValidationErrors_loop map existsb]. rewrite logged_cons.
    unfold issue_line at 2.
    destruct (is_Warning e); cbn [negb orb];
      unfold mbind, M_bind; rewrite log_Printf_line3, IH; [done|].
    by rewrite orb_true_r.
Qed.

Lemma PrintValidationErrors_eq errs w :
  PrintValidationErrors errs w
  = (existsb (λ e, negb (is_Warning e)) errs, logged (classifier_lines errs) w).
Proof.
  unfold PrintValidationErrors. destruct errs as [|e errs]; [done|].
  cbn [length Nat.eqb classifier_lines]. unfold mbind, M_bind.
  rewrite log_Printf_line3, PrintValidationErrors_loop_eq.
  by rewrite logged_cons.
Qed.

Lemma existsb_not_Warning errs :
  existsb (λ e, negb (is_Warning e)) errs = true
  ↔ ∃ e, e ∈ errs ∧ is_Warning e = false.
Proof.
  rewrite existsb_exists. split.
  - intros (e & Hin & He). exists e. split; [by apply list_elem_of_In|].
    by destruct (is_Warning e).
  - intros (e & Hin & He). exists e. split; [by apply list_elem_of_In|].
    by rewrite He.
Qed.

Lemma existsb_kinds errs :
  existsb (λ e, negb (is_Warning e)) errs = existsb negb (map is_Warning errs).
Proof. induction errs as [|e errs IH]; [done|]. cbn. by rewrite IH. Qed.

End Classifier.

(** C1. The flag that [PrintValidationErrors] returns is true exactly when
    some issue of the list has a dynamic kind other than [Warning]; and two
    lists whose issues have the same kinds, position by position, get the
    same flag, whatever their messages and whatever the state of the
    output. *)
Theorem PrintValidationErrors_fatal_iff_not_Warning (DNSConfig : Type) :
  (∀ (errs : list (option error)) (w : World DNSConfig),
     (PrintValidationErrors errs w).1 = true
     ↔ ∃ e, e ∈ errs ∧ is_Warning e = false)
  ∧ (∀ (errs1 errs2 : list (option error)) (w1 w2 : World DNSConfig),
       map is_Warning errs1 = map is_Warning errs2 →
       (PrintValidationErrors errs1 w1).1 = (PrintValidationErrors errs2 w2).1).
Proof.
  split.
  - intros errs w. rewrite PrintValidationErrors_eq. cbn [fst].
    apply existsb_not_Warning.
  - intros errs1 errs2 w1 w2 Hk. rewrite !PrintValidationErrors_eq. cbn [fst].
    by rewrite !existsb_kinds, Hk.
Qed.

(** C6. On the empty list [PrintValidationErrors] returns false and leaves
    the world as it is. On any other list the logger's stream receives the
    count line and then one line per issue, in the order of the list,
    WARNING: for a [Warning] and ERROR: for any other issue, nothing being
    sorted or dropped; the other stream, the files, the calls and the
    logger's settings stay as they are. *)
Theorem PrintValidationErrors_output (DNSConfig : Type)
    (errs : list (option error)) (w : World DNSConfig) :
  let w' := (PrintValidationErrors errs w).2 in
  (errs = [] → PrintValidationErrors errs w = (false, w))
  ∧ (errs ≠ [] →
     written (log_output w) w'
     = written (log_output w) w
       ++ (GoString.fmt_d (length errs) +:+ " Validation errors:" +:+ nl)
          :: map (λ e, (if is_Warning e then "WARNING: " else "ERROR: ")
                       +:+ fmt_s e +:+ nl) errs)
  ∧ (∀ s, s ≠ log_output w → written s w' = written s w)
  ∧ files w' = files w ∧ calls w' = calls w
  ∧ log_output w' = log_output w ∧ cli_ErrWriter w' = cli_ErrWriter w.
Proof.
  cbn zeta. rewrite PrintValidationErrors_eq. cbn [snd].
  destruct (logged_fields (classifier_lines errs) w) as (Hf & Hc & Hl & He & Hw).
  split; [by intros ->|]. split; [|split].
  - intros Hne. rewrite Hw. destruct (decide _); [|done].
    by destruct errs.
  - intros s Hs. rewrite Hw. destruct (decide _); [done|by rewrite app_nil_r].
  - done.
Qed.

Example PrintValidationErrors_run :
  let w0 : World unit :=
    {| files := ∅; stdout := []; stderr := []; log_output := Stderr;
       cli_ErrWriter := Stderr; calls := [] |} in
  let r := PrintValidationErrors
             [Some (Warning "w1"); Some (errorString "e1"); None;
              Some (Warning "w1")] w0 in
  r.1 = true
  ∧ stderr r.2 = ["4 Validation errors:" +:+ nl; "WARNING: w1" +:+ nl;
                  "ERROR: e1" +:+ nl; "ERROR: %!s(<nil>)" +:+ nl;
                  "WARNING: w1" +:+ nl]
  ∧ stdout r.2 = [].
Proof. by vm_compute. Qed.

(** ** The serializer *)

Ltac unfold_M :=
  unfold MarshalIndent, Marshal, os_Create, File_Write, File_Close,
    fmt_Println, fmt_Fprintf, ExecuteJavaScript, PostProcess,
    ValidateAndNormalizeConfig, rfc4183_PrintWarning, log_SetOutput, modify,
    mbind, M_bind, mret, M_ret.

Section Serializer.

Context {DNSConfig : Type} (X : Collaborators DNSConfig).
Implicit Types (w : World DNSConfig) (cfg : DNSConfig).

Lemma render_eq (pretty : bool) cfg w :
  (if pretty then MarshalIndent X cfg "" "  " else Marshal X cfg) w
  = (rendered X pretty cfg, record_call (Marshal_call cfg) w).
Proof.
  destruct pretty; unfold_M; cbn; [|done].
  destruct (json_Marshal X cfg); [|done].
  by destruct (json.appendIndent _ _ _ _ _) as [? []].
Qed.

Lemma PrintJSON_eq (args : PrintJSONArgs) cfg w :
  PrintJSON X args cfg w
  = let w1 := record_call (Marshal_call cfg) w in
    match rendered X (Pretty args) cfg with
    | inr err => (Some err, w1)
    | inl dat =>
        if String.eqb (Output args) "" then (None, emit Stdout (dat +:+ nl) w1)
        else after_write X (Output args) dat w1
    end.
Proof.
  unfold PrintJSON. unfold mbind at 1. unfold M_bind at 1.
  rewrite render_eq. cbn zeta.
  destruct (rendered X (Pretty args) cfg) as [dat|err]; [|done].
  destruct (String.eqb (Output args) ""); cbn [negb]; [done|].
  unfold after_write. unfold_M. cbn.
  destruct (os_Create_error X (Output args)); [done|]. cbn.
  by destruct (os_Write_error X (Output args) dat) as [[n e]|].
Qed.

Lemma nl_changes (dat : string) : dat ≠ dat +:+ nl.
Proof.
  intros H. apply (f_equal String.length) in H.
  rewrite string_length_app in H. cbn in H. lia.
Qed.

Lemma store_lookup (out dat : string) (f : gmap string string) :
  out ≠ os_DevNull → store out dat f !! out = Some dat.
Proof.
  intros H. unfold store. apply String.eqb_neq in H. rewrite H.
  apply lookup_insert_eq.
Qed.

Lemma rendered_pretty_compact (ws : ascii → bool) cfg (tp : string) :
  (∀ c, json.isSpace c = true → ws c = true) →
  rendered X true cfg = inl tp →
  ∃ tc, rendered X false cfg = inl tc ∧ json.remove ws tp = json.remove ws tc.
Proof.
  intros Hws. unfold rendered.
  destruct (json_Marshal X cfg) as [b|]; [|done].
  destruct (json.appendIndent _ _ _ _ _) as [b2 [e|]] eqn:Hind; [done|].
  intros [= ->]. exists b. split; [done|].
  apply (appendIndent_remove (json_quoteChar X) ws Hws b "" "  " tp); [done| |done].
  cbn. by rewrite (Hws " "%char eq_refl).
Qed.

End Serializer.

(** C7. For any graph, the text that [PrintJSON] renders in pretty mode
    and the one it renders in compact mode are equal once white space is
    removed from both (for any set of white-space bytes that holds the four
    JSON space bytes): whenever the pretty rendering gives a text, so does
    the compact one, and when both runs succeed the texts that reach the
    standard output, or the file, differ in white space only. *)
Theorem PrintJSON_pretty_compact (DNSConfig : Type)
    (X : Collaborators DNSConfig) (ws : ascii → bool)
    (Hws : ∀ c, json.isSpace c = true → ws c = true)
    (cfg : DNSConfig) (w : World DNSConfig) :
  (∀ tp, (MarshalIndent X cfg "" "  " w).1 = inl tp →
         ∃ tc, (Marshal X cfg w).1 = inl tc
               ∧ json.remove ws tp = json.remove ws tc)
  ∧ (∀ out wp wc,
       PrintJSON X {| Pretty := true; Output := out |} cfg w = (None, wp) →
       PrintJSON X {| Pretty := false; Output := out |} cfg w = (None, wc) →
       ∃ tp tc,
         json.remove ws tp = json.remove ws tc
         ∧ (out = "" →
            stdout wp = stdout w ++ [tp +:+ nl]
            ∧ stdout wc = stdout w ++ [tc +:+ nl])
         ∧ (out ≠ "" →
            calls wp = calls w ++ [Marshal_call cfg; Create_call out;
                                   Write_call out tp; Close_call out]
            ∧ calls wc = calls w ++ [Marshal_call cfg; Create_call out;
                                     Write_call out tc; Close_call out]
            ∧ (out ≠ os_DevNull →
               files wp !! out = Some tp ∧ files wc !! out = Some tc))).
Proof.
  split.
  - intros tp. rewrite (render_eq X true), (render_eq X false). cbn [fst].
    by apply rendered_pretty_compact.
  - intros out wp wc. rewrite !PrintJSON_eq. cbn [Pretty Output]. cbn zeta.
    destruct (rendered X true cfg) as [tp|] eqn:Hp; [|done].
    destruct (rendered_pretty_compact X ws cfg tp Hws Hp) as (tc & -> & Hrm).
    intros Hwp Hwc. exists tp, tc. split; [done|].
    destruct (String.eqb out "") eqn:Hout.
    + apply String.eqb_eq in Hout as ->.
      injection Hwp as <-. injection Hwc as <-. by split.
    + apply String.eqb_neq in Hout. split; [done|]. intros _.
      unfold after_write in Hwp, Hwc.
      destruct (os_Create_error X out); [done|].
      destruct (os_Write_error X out tp) as [[? ?]|]; [done|].
      destruct (os_Write_error X out tc) as [[? ?]|]; [done|].
      injection Hwp as <-. injection Hwc as <-. cbn.
      rewrite <- !app_assoc. repeat split; try done; by apply store_lookup.
Qed.

(** C9. When the rendering fails, [PrintJSON] returns the error of the
    rendering and has made no call but [Marshal]: the destination is not
    created, the files hold what they held, and nothing is written to the
    standard streams. *)
Theorem PrintJSON_render_error (DNSConfig : Type)
    (X : Collaborators DNSConfig) (args : PrintJSONArgs) (cfg : DNSConfig)
    (w : World DNSConfig) (e : error) :
  ((if Pretty args then MarshalIndent X cfg "" "  " else Marshal X cfg) w).1
  = inr e →
  let r := PrintJSON X args cfg w in
  r.1 = Some e
  ∧ calls r.2 = calls w ++ [Marshal_call cfg]
  ∧ files r.2 = files w
  ∧ stdout r.2 = stdout w ∧ stderr r.2 = stderr w.
Proof.
  rewrite render_eq. cbn [fst]. intros Hr. cbn zeta.
  rewrite PrintJSON_eq. cbn zeta. by rewrite Hr.
Qed.

(** C10. For the same rendered bytes [dat], a destination path has
    [PrintJSON] create the file and write exactly [dat] to it, so that the
    file holds [dat] with no newline after it, and the empty destination
    has it write [dat] followed by a newline to the standard output; the
    two outputs differ. *)
Theorem PrintJSON_destinations (DNSConfig : Type)
    (X : Collaborators DNSConfig) (pretty : bool) (cfg : DNSConfig)
    (w : World DNSConfig) (dat : string) :
  ((if pretty then MarshalIndent X cfg "" "  " else Marshal X cfg) w).1
  = inl dat →
  (∀ out, out ≠ "" → os_Create_error X out = None →
          os_Write_error X out dat = None →
     let r := PrintJSON X {| Pretty := pretty; Output := out |} cfg w in
     r.1 = None
     ∧ calls r.2 = calls w ++ [Marshal_call cfg; Create_call out;
                               Write_call out dat; Close_call out]
     ∧ (out ≠ os_DevNull → files r.2 !! out = Some dat)
     ∧ stdout r.2 = stdout w)
  ∧ (let r := PrintJSON X {| Pretty := pretty; Output := "" |} cfg w in
     r.1 = None
     ∧ stdout r.2 = stdout w ++ [dat +:+ nl]
     ∧ files r.2 = files w
     ∧ calls r.2 = calls w ++ [Marshal_call cfg])
  ∧ dat ≠ dat +:+ nl.
Proof.
  rewrite render_eq. cbn [fst]. intros Hr. split; [|split].
  - intros out Hout Hc Hw. cbn zeta. rewrite PrintJSON_eq.
    cbn [Pretty Output]. cbn zeta. rewrite Hr.
    apply String.eqb_neq in Hout. rewrite Hout.
    unfold after_write. rewrite Hc, Hw. cbn.
    rewrite <- !app_assoc. repeat split; try done. intros ?. by apply store_lookup.
  - cbn zeta. rewrite PrintJSON_eq. cbn [Pretty Output]. cbn zeta.
    by rewrite Hr.
  - apply nl_changes.
Qed.

(** ** The orchestrator *)

Section Orchestrator.

Context {DNSConfig : Type} (X : Collaborators DNSConfig).
Implicit Types (w : World DNSConfig) (cfg : DNSConfig).

Lemma count_calls_app (p : call DNSConfig → bool) (l1 l2 : list (call DNSConfig)) :
  count_calls p (l1 ++ l2) = (count_calls p l1 + count_calls p l2)%nat.
Proof. induction l1 as [|c l1 IH]; [done|]. cbn. rewrite IH. lia. Qed.

Lemma ExecuteDSL_eq (args : ExecuteDSLArgs) w :
  ExecuteDSL X args w = after_load X args w.
Proof.
  unfold ExecuteDSL, after_load.
  destruct (String.eqb (JSFile args) ""); [done|].
  unfold_M. cbn.
  destruct (js_ExecuteJavaScript X _ _ _); [|done]. cbn.
  by destruct (rtypes_PostProcess X _) as [? []].
Qed.

Lemma PrintIR_eq (args : PrintIRArgs) w :
  PrintIR X args w = after_PrintIR X args w.
Proof.
  unfold PrintIR, after_PrintIR. unfold mbind at 1. unfold M_bind at 1.
  destruct (GetDNSConfig X _ w) as [[cfg|err] w1]; [|done]. cbn [fst snd].
  destruct (Raw args); cbn [negb]; [done|].
  unfold_M. cbn.
  destruct (normalize_ValidateAndNormalizeConfig X cfg) as [cfg' errs].
  rewrite PrintValidationErrors_eq. cbn [fst snd].
  by destruct (existsb _ errs).
Qed.

(** *** What the loader and the serializer leave untouched *)

Lemma count_calls_none (p q : call DNSConfig → bool) (l : list (call DNSConfig)) :
  (∀ c, q c = true → p c = false) →
  Forall (λ c, q c = true) l → count_calls p l = 0%nat.
Proof.
  intros Hpq. induction 1 as [|c l Hc _ IH]; [done|].
  cbn. by rewrite (Hpq c Hc), IH.
Qed.

Lemma load_fields (args : GetDNSConfigArgs) w :
  let l := GetDNSConfig X args w in
  files l.2 = files w ∧ stdout l.2 = stdout w ∧ stderr l.2 = stderr w
  ∧ log_output l.2 = log_output w ∧ cli_ErrWriter l.2 = cli_ErrWriter w
  ∧ ∃ new, calls l.2 = calls w ++ new ∧ Forall (λ c, is_load c = true) new.
Proof.
  cbn zeta. unfold GetDNSConfig. rewrite ExecuteDSL_eq. unfold after_load.
  destruct (String.eqb _ ""); cbn.
  { split_and!; try done. exists []. by rewrite app_nil_r. }
  destruct (js_ExecuteJavaScript X _ _ _) as [cfg0|err]; cbn.
  - destruct (rtypes_PostProcess X cfg0) as [cfg1 [err|]]; cbn;
      split_and!; try done; eexists [_; _];
      (split; [by rewrite <- app_assoc|]); by repeat constructor.
  - split_and!; try done. eexists [_]. split; [done|]. by repeat constructor.
Qed.

Lemma store_discard (name c : string) (f : gmap string string) :
  name = "" ∨ name = os_DevNull → name ≠ "" → store name c f = f.
Proof.
  intros [?| ->] Hne; [done|]. unfold store. by rewrite String.eqb_refl.
Qed.

Lemma PrintJSON_fields (args : PrintJSONArgs) cfg w :
  let r := PrintJSON X args cfg w in
  stderr r.2 = stderr w
  ∧ log_output r.2 = log_output w ∧ cli_ErrWriter r.2 = cli_ErrWriter w
  ∧ (stdout r.2 = stdout w
     ∨ ∃ dat, Output args = "" ∧ stdout r.2 = stdout w ++ [dat +:+ nl])
  ∧ (∃ rest, calls r.2 = calls w ++ Marshal_call cfg :: rest
             ∧ Forall (λ c, is_serialize c = true) rest)
  ∧ (Output args = "" ∨ Output args = os_DevNull → files r.2 = files w).
Proof.
  cbn zeta. rewrite PrintJSON_eq. cbn zeta.
  destruct (rendered X (Pretty args) cfg) as [dat|err]; cbn.
  2: { split_and!; try done; [by left|by exists []]. }
  destruct (String.eqb (Output args) "") eqn:Hout; cbn.
  { apply String.eqb_eq in Hout.
    split_and!; try done; [right; by exists dat|by exists []]. }
  apply String.eqb_neq in Hout. unfold after_write.
  destruct (os_Create_error X (Output args)); cbn.
  { split_and!; try done; [by left|].
    eexists [_]. split; [by rewrite <- app_assoc|]. by repeat constructor. }
  destruct (os_Write_error X (Output args) dat) as [[n e]|]; cbn;
    (split_and!; try done;
     [by left
     |eexists [_; _; _]; split; [by rewrite <- !app_assoc|];
      by repeat constructor
     |intros H; by rewrite !store_discard]).
Qed.

Lemma count_calls_load (p : call DNSConfig → bool) (args : GetDNSConfigArgs) w :
  (∀ c, is_load c = true → p c = false) →
  count_calls p (calls (GetDNSConfig X args w).2) = count_calls p (calls w).
Proof.
  intros Hp. destruct (load_fields args w) as (_ & _ & _ & _ & _ & new & -> & Hn).
  rewrite count_calls_app, (count_calls_none p is_load new Hp Hn). lia.
Qed.

Lemma count_calls_PrintJSON (p : call DNSConfig → bool) (args : PrintJSONArgs)
    cfg w :
  (∀ c, is_serialize c = true → p c = false) →
  count_calls p (calls (PrintJSON X args cfg w).2) = count_calls p (calls w).
Proof.
  intros Hp.
  destruct (PrintJSON_fields args cfg w) as (_ & _ & _ & _ & (rest & -> & Hn) & _).
  rewrite count_calls_app. cbn [count_calls].
  rewrite (Hp (Marshal_call cfg) eq_refl).
  rewrite (count_calls_none p is_serialize rest Hp Hn). lia.
Qed.

Lemma PrintIR_fields (args : PrintIRArgs) w :
  let r := PrintIR X args w in
  let l := GetDNSConfig X (PrintIRArgs_GetDNSConfigArgs args) w in
  log_output r.2 = log_output w ∧ cli_ErrWriter r.2 = cli_ErrWriter w
  ∧ (log_output w = Stdout ∨ Raw args = true → stderr r.2 = stderr w)
  ∧ (Output (PrintIRArgs_PrintJSONArgs args) = ""
     ∨ Output (PrintIRArgs_PrintJSONArgs args) = os_DevNull →
     files r.2 = files w)
  ∧ count_calls is_PrintWarning (calls r.2) = count_calls is_PrintWarning (calls w)
  ∧ count_calls is_Validate (calls r.2)
    = (count_calls is_Validate (calls w)
       + match l.1 with
         | inl _ => if Raw args then 0 else 1
         | inr _ => 0
         end)%nat.
Proof.
  cbn zeta. rewrite PrintIR_eq. unfold after_PrintIR. cbn zeta.
  pose proof (load_fields (PrintIRArgs_GetDNSConfigArgs args) w) as Hl.
  pose proof (count_calls_load is_PrintWarning (PrintIRArgs_GetDNSConfigArgs args) w)
    as HlW.
  pose proof (count_calls_load is_Validate (PrintIRArgs_GetDNSConfigArgs args) w)
    as HlV.
  cbn zeta in Hl.
  destruct (GetDNSConfig X _ w) as [[cfg|err] w1]; cbn [fst snd] in *.
  2: { destruct Hl as (Hf & Ho & He & Hlo & Hc & _).
       rewrite HlW, HlV by (by intros []). split_and!; try done; lia. }
  destruct Hl as (Hf & Ho & He & Hlo & Hc & _).
  destruct (Raw args) eqn:Hraw.
  - pose proof (PrintJSON_fields (PrintIRArgs_PrintJSONArgs args) cfg w1)
      as (Pe & Plo & Pc & _ & _ & Pf).
    cbn zeta in *.
    rewrite !count_calls_PrintJSON, HlW, HlV by (by intros []).
    split_and!; try congruence; [intros H; rewrite Pf by done; congruence|lia].
  - destruct (normalize_ValidateAndNormalizeConfig X cfg) as [cfg' errs].
    cbn [fst snd].
    set (w2 := record_call (ValidateAndNormalizeConfig_call cfg) w1).
    destruct (logged_fields (classifier_lines errs) w2) as (Lf & Lc & Ll & Le & Lw).
    assert (count_calls is_PrintWarning (calls w2)
            = count_calls is_PrintWarning (calls w)) as HW.
    { subst w2. cbn. rewrite count_calls_app, HlW by (by intros []). cbn. lia. }
    assert (count_calls is_Validate (calls w2)
            = (count_calls is_Validate (calls w) + 1)%nat) as HV.
    { subst w2. cbn. rewrite count_calls_app, HlV by (by intros []). done. }
    assert (log_output w = Stdout ∨ false = true →
            stderr (logged (classifier_lines errs) w2) = stderr w) as Hse.
    { intros [Hs|?]; [|done].
      specialize (Lw Stderr). cbn in Lw. rewrite Lw.
      subst w2. cbn. rewrite Hlo, Hs. cbn. by rewrite app_nil_r. }
    destruct (existsb _ errs); cbn [fst snd].
    + rewrite Lf, Lc, Ll, Le. subst w2. cbn in *.
      split_and!; try congruence; done.
    + pose proof (PrintJSON_fields (PrintIRArgs_PrintJSONArgs args) cfg'
                    (logged (classifier_lines errs) w2))
        as (Pe & Plo & Pc & _ & _ & Pf).
      cbn zeta in *.
      rewrite !count_calls_PrintJSON, Lc, HW, HV by (by intros []).
      rewrite Pe, Plo, Pc, Ll, Le. subst w2. cbn in *.
      split_and!; try congruence; try done.
      intros H. rewrite Pf, Lf by done. done.
Qed.

(** With a destination path the standard output gets the lines of the
    classifier and nothing else, when the logger writes there. *)
Lemma PrintIR_stdout_logged (args : PrintIRArgs) w :
  log_output w = Stdout → Raw args = false →
  Output (PrintIRArgs_PrintJSONArgs args) ≠ "" →
  stdout (PrintIR X args w).2
  = stdout w
    ++ match (GetDNSConfig X (PrintIRArgs_GetDNSConfigArgs args) w).1 with
       | inl cfg => classifier_lines (normalize_ValidateAndNormalizeConfig X cfg).2
       | inr _ => []
       end.
Proof.
  intros Hlog Hraw Hout. rewrite PrintIR_eq. unfold after_PrintIR. cbn zeta.
  pose proof (load_fields (PrintIRArgs_GetDNSConfigArgs args) w)
    as (_ & Ho & _ & Hlo & _ & _).
  cbn zeta in *.
  destruct (GetDNSConfig X _ w) as [[cfg|err] w1]; cbn [fst snd] in *.
  2: { by rewrite app_nil_r. }
  rewrite Hraw.
  set (w2 := record_call (ValidateAndNormalizeConfig_call cfg) w1).
  set (errs := (normalize_ValidateAndNormalizeConfig X cfg).2).
  destruct (logged_fields (classifier_lines errs) w2) as (_ & _ & _ & _ & Lw).
  specialize (Lw Stdout). cbn [written] in Lw.
  assert (log_output w2 = Stdout) as Hlo2 by (subst w2; cbn; congruence).
  assert (stdout w2 = stdout w) as Ho2 by (subst w2; cbn; congruence).
  rewrite Hlo2, Ho2 in Lw. rewrite decide_True in Lw by done.
  destruct (existsb _ errs); cbn [fst snd]; [done|].
  pose proof (PrintJSON_fields (PrintIRArgs_PrintJSONArgs args)
                (normalize_ValidateAndNormalizeConfig X cfg).1
                (logged (classifier_lines errs) w2))
    as (_ & _ & _ & [Hs|(dat & Hempty & _)] & _); [|done].
  cbn zeta in Hs. by rewrite Hs.
Qed.

End Orchestrator.

(** C4. With an empty source path [ExecuteDSL] answers the error
    "no config specified" and leaves the world as it found it, so the
    evaluator has not been called; [PrintIR] and the print-ir command fail
    with that error, and so does the check command, whose only call is the
    deferred warning and which prints nothing. *)
Theorem ExecuteDSL_no_config (DNSConfig : Type) (X : Collaborators DNSConfig)
    (args : ExecuteDSLArgs) (w : World DNSConfig) :
  JSFile args = "" →
  ExecuteDSL X args w = (inr (errorString "no config specified"), w)
  ∧ count_calls is_ExecuteJavaScript (calls (ExecuteDSL X args w).2)
    = count_calls is_ExecuteJavaScript (calls w)
  ∧ (∀ jsonFile pj raw,
       let pargs := {| PrintIRArgs_GetDNSConfigArgs :=
                         {| GetDNSConfigArgs_ExecuteDSLArgs := args;
                            JSONFile := jsonFile |};
                       PrintIRArgs_PrintJSONArgs := pj; Raw := raw |} in
       PrintIR X pargs w = (Some (errorString "no config specified"), w)
       ∧ print_ir_Action X pargs w
         = (Some (exitError (errorString "no config specified") 1), w))
  ∧ (∀ jsonFile,
       let r := check_Action X
                  {| CheckArgs_GetDNSConfigArgs :=
                       {| GetDNSConfigArgs_ExecuteDSLArgs := args;
                          JSONFile := jsonFile |} |} w in
       r.1 = Some (exitError (errorString "no config specified") 1)
       ∧ calls r.2 = calls w ++ [PrintWarning_call]
       ∧ stdout r.2 = stdout w ∧ stderr r.2 = stderr w).
Proof.
  intros Hjs.
  assert (∀ w', ExecuteDSL X args w' = (inr (errorString "no config specified"), w'))
    as HE.
  { intros w'. unfold ExecuteDSL. by rewrite Hjs. }
  split; [apply HE|]. split; [by rewrite HE|]. split.
  - intros jsonFile pj raw. cbn zeta.
    assert (PrintIR X
              {| PrintIRArgs_GetDNSConfigArgs :=
                   {| GetDNSConfigArgs_ExecuteDSLArgs := args; JSONFile := jsonFile |};
                 PrintIRArgs_PrintJSONArgs := pj; Raw := raw |} w
            = (Some (errorString "no config specified"), w)) as HP.
    { unfold PrintIR, GetDNSConfig. unfold mbind, M_bind. cbn. by rewrite HE. }
    split; [done|]. unfold print_ir_Action, mbind, M_bind. by rewrite HP.
  - intros jsonFile. cbn zeta. unfold check_Action, PrintIR, GetDNSConfig.
    unfold_M. destruct args as [js dev vars]. cbn in *. rewrite HE. by cbn.
Qed.

(** C2. With the raw flag set, [PrintIR] is the loader followed, when the
    load succeeds, by [PrintJSON] on the graph the loader returned, which
    is the graph the post-processor left of the evaluator's: the validator
    is not called, nothing goes to the error stream, the standard output
    gets at most the serialized text, and the first call after the load is
    the rendering of that graph. *)
Theorem PrintIR_raw (DNSConfig : Type) (X : Collaborators DNSConfig)
    (args : PrintIRArgs) (w : World DNSConfig) :
  Raw args = true →
  let r := PrintIR X args w in
  let l := GetDNSConfig X (PrintIRArgs_GetDNSConfigArgs args) w in
  let ed := GetDNSConfigArgs_ExecuteDSLArgs (PrintIRArgs_GetDNSConfigArgs args) in
  r = match l.1 with
      | inl cfg => PrintJSON X (PrintIRArgs_PrintJSONArgs args) cfg l.2
      | inr err => (Some err, l.2)
      end
  ∧ count_calls is_Validate (calls r.2) = count_calls is_Validate (calls w)
  ∧ stderr r.2 = stderr w
  ∧ (stdout r.2 = stdout w ∨ ∃ dat, stdout r.2 = stdout w ++ [dat +:+ nl])
  ∧ (∀ cfg, l.1 = inl cfg →
       (∃ cfg0, js_ExecuteJavaScript X (JSFile ed) (DevMode ed)
                  (stringSliceToMap (Variable_ ed)) = inl cfg0
                ∧ rtypes_PostProcess X cfg0 = (cfg, None))
       ∧ ∃ rest, calls r.2 = calls l.2 ++ Marshal_call cfg :: rest
                 ∧ Forall (λ c, is_serialize c = true) rest).
Proof.
  intros Hraw. cbn zeta.
  pose proof (PrintIR_fields X args w) as (_ & _ & Hse & _ & _ & HV).
  cbn zeta in HV. rewrite Hraw in HV.
  assert (PrintIR X args w
          = match (GetDNSConfig X (PrintIRArgs_GetDNSConfigArgs args) w).1 with
            | inl cfg => PrintJSON X (PrintIRArgs_PrintJSONArgs args) cfg
                           (GetDNSConfig X (PrintIRArgs_GetDNSConfigArgs args) w).2
            | inr err => (Some err,
                          (GetDNSConfig X (PrintIRArgs_GetDNSConfigArgs args) w).2)
            end) as HP.
  { rewrite PrintIR_eq. unfold after_PrintIR. cbn zeta. by rewrite Hraw. }
  split; [exact HP|]. split.
  { rewrite HV. by destruct (GetDNSConfig X _ w).1; lia. }
  split; [by apply Hse; right|].
  pose proof (load_fields X (PrintIRArgs_GetDNSConfigArgs args) w)
    as (_ & Hlo & _ & _ & _ & _).
  cbn zeta in Hlo. rewrite HP. split.
  - destruct (GetDNSConfig X _ w).1 as [cfg|err]; [|by left].
    pose proof (PrintJSON_fields X (PrintIRArgs_PrintJSONArgs args) cfg
                  (GetDNSConfig X (PrintIRArgs_GetDNSConfigArgs args) w).2)
      as (_ & _ & _ & [Hs|(dat & _ & Hs)] & _).
    + left. cbn zeta in Hs. congruence.
    + right. exists dat. cbn zeta in Hs. congruence.
  - intros cfg Hcfg. rewrite Hcfg. split.
    + revert Hcfg. unfold GetDNSConfig. rewrite ExecuteDSL_eq. unfold after_load.
      destruct (String.eqb _ ""); [done|]. cbn zeta.
      destruct (js_ExecuteJavaScript X _ _ _) as [cfg0|]; [|done].
      destruct (rtypes_PostProcess X cfg0) as [cfg1 [e|]] eqn:Hpp; [done|].
      cbn. intros [= ->]. by exists cfg0.
    + by pose proof (PrintJSON_fields X (PrintIRArgs_PrintJSONArgs args) cfg
                       (GetDNSConfig X (PrintIRArgs_GetDNSConfigArgs args) w).2)
        as (_ & _ & _ & _ & Hc & _).
Qed.

(** C3. When the load succeeds, the raw flag is not set and the classifier
    finds the validator's issues fatal, [PrintIR] returns the error whose
    whole content is the text "exiting due to validation errors"; the only
    call after the load is the validator's (nothing is rendered, no file
    is created or written), while the count line and the line of every
    issue have gone to the logger's stream. *)
Theorem PrintIR_fatal (DNSConfig : Type) (X : Collaborators DNSConfig)
    (args : PrintIRArgs) (w w1 : World DNSConfig) (cfg cfg' : DNSConfig)
    (errs : list (option error)) :
  Raw args = false →
  GetDNSConfig X (PrintIRArgs_GetDNSConfigArgs args) w = (inl cfg, w1) →
  normalize_ValidateAndNormalizeConfig X cfg = (cfg', errs) →
  (PrintValidationErrors errs
     (record_call (ValidateAndNormalizeConfig_call cfg) w1)).1 = true →
  let r := PrintIR X args w in
  r.1 = Some (errorString "exiting due to validation errors")
  ∧ calls r.2 = calls w1 ++ [ValidateAndNormalizeConfig_call cfg]
  ∧ count_calls is_serialize (calls r.2) = count_calls is_serialize (calls w)
  ∧ files r.2 = files w
  ∧ written (log_output w) r.2
    = written (log_output w) w
      ++ (GoString.fmt_d (length errs) +:+ " Validation errors:" +:+ nl)
         :: map (λ e, (if is_Warning e then "WARNING: " else "ERROR: ")
                      +:+ fmt_s e +:+ nl) errs
  ∧ (∀ s, s ≠ log_output w → written s r.2 = written s w).
Proof.
  intros Hraw Hload Hval Hfatal. cbn zeta.
  rewrite PrintValidationErrors_eq in Hfatal. cbn [fst] in Hfatal.
  pose proof (load_fields X (PrintIRArgs_GetDNSConfigArgs args) w)
    as (Hf & Ho & He & Hlo & _ & _).
  pose proof (count_calls_load X is_serialize (PrintIRArgs_GetDNSConfigArgs args) w)
    as HS.
  cbn zeta in *. rewrite Hload in *. cbn [fst snd] in *.
  rewrite PrintIR_eq. unfold after_PrintIR. cbn zeta.
  rewrite Hload. cbn [fst snd]. rewrite Hraw, Hval. cbn [fst snd].
  rewrite Hfatal. cbn [fst snd].
  set (w2 := record_call (ValidateAndNormalizeConfig_call cfg) w1).
  destruct (logged_fields (classifier_lines errs) w2) as (Lf & Lc & Ll & Le & Lw).
  assert (∀ s, written s w2 = written s w) as Hw2.
  { intros []; subst w2; cbn; congruence. }
  assert (log_output w2 = log_output w) as Hlo2 by (subst w2; cbn; congruence).
  assert (errs ≠ []) as Hne by (by destruct errs).
  split; [done|]. split; [by rewrite Lc|]. split.
  { rewrite Lc. subst w2. cbn. rewrite count_calls_app, HS by (by intros []).
    cbn. lia. }
  split; [rewrite Lf; subst w2; cbn; congruence|].
  split.
  - rewrite Lw, Hw2, Hlo2. destruct (decide _); [|done]. by destruct errs.
  - intros s Hs. rewrite Lw, Hw2, Hlo2. destruct (decide _); [done|].
    by rewrite app_nil_r.
Qed.

(** C8. The check command is [PrintIR] on its own load arguments with
    pretty off, the discard device as destination and raw off, run after
    the logger and the framework's error writer were pointed at the
    standard output; then the deferred warning is called, once, whatever
    the outcome; then the text "No errors." goes to the standard output
    exactly when the pipeline returned no error. Before that the standard
    output has received the lines of the classifier and no serialized
    text; nothing reaches the error stream, the files are left as they
    are, and the validator is called whenever the load succeeds. *)
Theorem check_Action_spec (DNSConfig : Type) (X : Collaborators DNSConfig)
    (args : CheckArgs) (w : World DNSConfig) :
  let pargs := {| PrintIRArgs_GetDNSConfigArgs := CheckArgs_GetDNSConfigArgs args;
                  PrintIRArgs_PrintJSONArgs :=
                    {| Pretty := false; Output := os_DevNull |};
                  Raw := false |} in
  let w0 := set_log_output Stdout (set_cli_ErrWriter Stdout w) in
  let p := PrintIR X pargs w0 in
  let r := check_Action X args w in
  r.1 = exit p.1
  ∧ (r.1 = None ↔ p.1 = None)
  ∧ calls r.2 = calls p.2 ++ [PrintWarning_call]
  ∧ count_calls is_PrintWarning (calls r.2)
    = S (count_calls is_PrintWarning (calls w))
  ∧ stdout p.2
    = stdout w
      ++ match (GetDNSConfig X (CheckArgs_GetDNSConfigArgs args) w0).1 with
         | inl cfg => classifier_lines (normalize_ValidateAndNormalizeConfig X cfg).2
         | inr _ => []
         end
  ∧ (stdout r.2 = stdout p.2 ++ ["No errors." +:+ nl] ↔ r.1 = None)
  ∧ (r.1 ≠ None → stdout r.2 = stdout p.2)
  ∧ stderr r.2 = stderr w
  ∧ log_output r.2 = Stdout ∧ cli_ErrWriter r.2 = Stdout
  ∧ files r.2 = files w
  ∧ (∀ cfg, (GetDNSConfig X (CheckArgs_GetDNSConfigArgs args) w0).1 = inl cfg →
       count_calls is_Validate (calls r.2)
       = S (count_calls is_Validate (calls w))).
Proof.
  cbn zeta.
  set (pargs := {| PrintIRArgs_GetDNSConfigArgs := CheckArgs_GetDNSConfigArgs args;
                   PrintIRArgs_PrintJSONArgs :=
                     {| Pretty := false; Output := os_DevNull |};
                   Raw := false |}).
  set (w0 := set_log_output Stdout (set_cli_ErrWriter Stdout w)).
  pose proof (PrintIR_fields X pargs w0) as (Hlo & Hcli & Hse & Hf & HW & HV).
  pose proof (PrintIR_stdout_logged X pargs w0 eq_refl eq_refl) as Hso.
  cbn zeta in *.
  assert (check_Action X args w
          = (exit (PrintIR X pargs w0).1,
             let w1 := record_call PrintWarning_call (PrintIR X pargs w0).2 in
             match exit (PrintIR X pargs w0).1 with
             | None => emit Stdout ("No errors." +:+ nl) w1
             | Some _ => w1
             end)) as ->.
  { subst pargs w0. unfold check_Action.
    destruct args as [[[js dev vars] jsonFile]].
    unfold_M. cbn [CheckArgs_GetDNSConfigArgs GetDNSConfigArgs_ExecuteDSLArgs
                   JSFile DevMode Variable_ JSONFile].
    destruct (PrintIR X _ _) as [[e|] w1]; by cbn. }
  cbn [fst snd].
  specialize (Hse (or_introl eq_refl)). specialize (Hf (or_intror eq_refl)).
  specialize (Hso ltac:(done)).
  unfold pargs in Hso at 2. cbn [PrintIRArgs_GetDNSConfigArgs] in Hso.
  unfold pargs in HV at 2 3. cbn [PrintIRArgs_GetDNSConfigArgs Raw] in HV.
  destruct (PrintIR X pargs w0) as [[e|] w1]; cbn [fst snd exit] in *;
    cbn zeta; cbn [calls stdout stderr files log_output cli_ErrWriter
                   record_call emit];
    split_and!; try done;
    try (rewrite count_calls_app, HW; cbn; lia);
    try (split; [intros H; apply (f_equal length) in H;
                 rewrite length_app in H; cbn in H; lia|done]);
    try (intros cfg Hcfg; rewrite Hcfg in HV; rewrite count_calls_app, HV;
         cbn; lia).
Qed.

(** ** The theorems at a concrete invocation *)

Lemma PrintIR_raw_witness :
  let r := PrintIR demo (demo_args "one.js" [] false "out.json" true) demo_world in
  r.1 = None
  ∧ count_calls is_Validate (calls r.2) = 0%nat
  ∧ stderr r.2 = []
  ∧ inl (default "" (files r.2 !! "out.json")) = demo_Marshal ["example.com"].
Proof.
  pose proof (PrintIR_raw _ demo (demo_args "one.js" [] false "out.json" true)
                demo_world eq_refl) as (Hr & Hv & He & _).
  split; [by rewrite Hr|]. split; [exact Hv|]. split; [exact He|].
  rewrite Hr. by vm_compute.
Defined.

Lemma PrintIR_fatal_witness :
  let r := PrintIR demo (demo_args "two.js" [] true "out.json" false) demo_world in
  r.1 = Some (errorString "exiting due to validation errors")
  ∧ files r.2 = files demo_world
  ∧ stderr r.2 = ["2 Validation errors:" +:+ nl;
                  "WARNING: no NS records" +:+ nl;
                  "ERROR: duplicate name" +:+ nl].
Proof.
  pose proof (PrintIR_fatal _ demo (demo_args "two.js" [] true "out.json" false)
                demo_world
                (GetDNSConfig demo
                   (PrintIRArgs_GetDNSConfigArgs
                      (demo_args "two.js" [] true "out.json" false)) demo_world).2
                ["a.example"; "b.example"] ["a.example"; "b.example"]
                [Some (Warning "no NS records"); Some (errorString "duplicate name")]
                eq_refl eq_refl eq_refl eq_refl) as (Hr & _ & _ & Hf & Hw & _).
  split; [exact Hr|]. split; [exact Hf|]. exact Hw.
Defined.

Lemma ExecuteDSL_no_config_witness :
  ExecuteDSL demo {| JSFile := ""; DevMode := true; Variable_ := ["a=b"] |} demo_world
  = (inr (errorString "no config specified"), demo_world).
Proof.
  exact (proj1 (ExecuteDSL_no_config _ demo
                  {| JSFile := ""; DevMode := true; Variable_ := ["a=b"] |}
                  demo_world eq_refl)).
Defined.

Lemma PrintJSON_pretty_compact_witness :
  ∃ tp tc,
    json.remove json.isSpace tp = json.remove json.isSpace tc
    ∧ tp ≠ tc
    ∧ stdout (PrintJSON demo {| Pretty := true; Output := "" |}
                ["example.com"] demo_world).2 = [tp +:+ nl]
    ∧ stdout (PrintJSON demo {| Pretty := false; Output := "" |}
                ["example.com"] demo_world).2 = [tc +:+ nl].
Proof.
  destruct (proj2 (PrintJSON_pretty_compact _ demo json.isSpace (λ c H, H)
                     ["example.com"] demo_world) ""
              (PrintJSON demo {| Pretty := true; Output := "" |}
                 ["example.com"] demo_world).2
              (PrintJSON demo {| Pretty := false; Output := "" |}
                 ["example.com"] demo_world).2 eq_refl eq_refl)
    as (tp & tc & Hrm & Hout & _).
  destruct (Hout eq_refl) as [Hp Hc].
  exists tp, tc. split; [exact Hrm|]. split; [|split; [exact Hp|exact Hc]].
  intros ->.
  assert (stdout (PrintJSON demo {| Pretty := true; Output := "" |}
                    ["example.com"] demo_world).2
          = stdout (PrintJSON demo {| Pretty := false; Output := "" |}
                      ["example.com"] demo_world).2) as E
    by (by rewrite Hp, Hc).
  by vm_compute in E.
Defined.

Lemma PrintJSON_render_error_witness :
  let r := PrintJSON demo {| Pretty := true; Output := "out.json" |}
             ["a"; "b"; "c"] demo_world in
  r.1 = Some (otherError "*json.UnsupportedValueError" "json: unsupported value")
  ∧ files r.2 !! "out.json" = Some "old content"
  ∧ calls r.2 = [Marshal_call ["a"; "b"; "c"]].
Proof.
  pose proof (PrintJSON_render_error _ demo {| Pretty := true; Output := "out.json" |}
                ["a"; "b"; "c"] demo_world
                (otherError "*json.UnsupportedValueError" "json: unsupported value")
                eq_refl) as (Hr & Hc & Hf & _).
  split; [exact Hr|]. split; [by rewrite Hf|exact Hc].
Defined.

Lemma PrintJSON_destinations_witness :
  let dat := "{" +:+ quote +:+ "domains" +:+ quote +:+ ":[]}" in
  files (PrintJSON demo {| Pretty := false; Output := "out.json" |} [] demo_world).2
    !! "out.json" = Some dat
  ∧ stdout (PrintJSON demo {| Pretty := false; Output := "" |} [] demo_world).2
    = [dat +:+ nl].
Proof.
  pose proof (PrintJSON_destinations _ demo false [] demo_world
                ("{" +:+ quote +:+ "domains" +:+ quote +:+ ":[]}") eq_refl)
    as (Hfile & (_ & Hout & _) & _).
  destruct (Hfile "out.json") as (_ & _ & Hf & _); [done..|].
  split; [by apply Hf|exact Hout].
Defined.

Example check_Action_run :
  let r := check_Action demo
             {| CheckArgs_GetDNSConfigArgs :=
                  PrintIRArgs_GetDNSConfigArgs
                    (demo_args "one.js" ["domain=x.org"] true "out.json" true) |}
             demo_world in
  r.1 = None
  ∧ stdout r.2 = ["1 Validation errors:" +:+ nl; "WARNING: no NS records" +:+ nl;
                  "No errors." +:+ nl]
  ∧ stderr r.2 = []
  ∧ files r.2 = files demo_world
  ∧ calls r.2 = [ExecuteJavaScript_call "one.js" false {["domain" := "x.org"]};
                 PostProcess_call ["x.org"];
                 ValidateAndNormalizeConfig_call ["x.org"];
                 Marshal_call ["x.org"];
                 Create_call "/dev/null";
                 Write_call "/dev/null"
                   (match demo_Marshal ["x.org"] with inl b => b | inr _ => "" end);
                 Close_call "/dev/null";
                 PrintWarning_call].
Proof. by vm_compute. Qed.

Example check_Action_fails :
  let r := check_Action demo
             {| CheckArgs_GetDNSConfigArgs :=
                  PrintIRArgs_GetDNSConfigArgs
                    (demo_args "two.js" [] false "" false) |}
             demo_world in
  r.1 = Some (exitError (errorString "exiting due to validation errors") 1)
  ∧ stdout r.2 = ["2 Validation errors:" +:+ nl; "WARNING: no NS records" +:+ nl;
                  "ERROR: duplicate name" +:+ nl]
  ∧ stderr r.2 = []
  ∧ count_calls is_PrintWarning (calls r.2) = 1%nat
  ∧ count_calls is_serialize (calls r.2) = 0%nat.
Proof. by vm_compute. Qed.

Example PrintIR_create_fails :
  let r := PrintIR demo (demo_args "one.js" [] false "/readonly/out.json" false)
             demo_world in
  r.1 = Some (otherError "*fs.PathError" "permission denied")
  ∧ files r.2 = files demo_world
  ∧ count_calls is_serialize (calls r.2) = 2%nat.
Proof. by vm_compute. Qed.

Example ExecuteDSL_wraps_evaluator_error :
  (ExecuteDSL demo {| JSFile := "broken.js"; DevMode := false; Variable_ := [] |}
     demo_world).1
  = inr (wrapError "executing broken.js: boom"
           (otherError "*errors.errorString" "boom")).
Proof. by vm_compute. Qed.

(** ** More on the variable mapper *)

Section VariableMapperMore.

Lemma step_union (m : gmap string string) (t : string) :
  stringSliceToMap_step m t = stringSliceToMap_step ∅ t ∪ m.
Proof.
  destruct (SplitN_cases t) as [[Hno _]|(k & v & -> & Hk & _)].
  - rewrite !step_no_eq by done. by rewrite (left_id_L ∅ (∪)).
  - rewrite !step_first_eq by done.
    by rewrite <- insert_union_l, (left_id_L ∅ (∪)).
Qed.

Lemma fold_step_union (l : list string) (m : gmap string string) :
  fold_left stringSliceToMap_step l m = stringSliceToMap l ∪ m.
Proof.
  revert m. induction l as [|t l IH]; intros m.
  - cbn. by rewrite (left_id_L ∅ (∪)).
  - unfold stringSliceToMap. cbn [fold_left].
    rewrite (IH (stringSliceToMap_step m t)), (IH (stringSliceToMap_step ∅ t)).
    rewrite (step_union m t). by rewrite (assoc_L (∪)).
Qed.

Lemma size_step (m : gmap string string) (t : string) :
  (size (stringSliceToMap_step m t) ≤ S (size m))%nat.
Proof.
  destruct (SplitN_cases t) as [[Hno _]|(k & v & -> & Hk & _)].
  - rewrite step_no_eq by done. lia.
  - rewrite step_first_eq by done. rewrite map_size_insert.
    destruct (m !! k); cbn; lia.
Qed.


End VariableMapperMore.

(** X1. The map of two lists of tokens put end to end is the map of the
    second list completed by the map of the first: a key bound in the
    second list has its value from there, any other key has the value the
    first list gives it. Giving the same tokens twice changes nothing. *)
Theorem stringSliceToMap_app (l1 l2 : list string) :
  stringSliceToMap (l1 ++ l2) = stringSliceToMap l2 ∪ stringSliceToMap l1
  ∧ stringSliceToMap (l1 ++ l1) = stringSliceToMap l1.
Proof.
  assert (∀ a b, stringSliceToMap (a ++ b)
                 = stringSliceToMap b ∪ stringSliceToMap a) as H.
  { intros a b. unfold stringSliceToMap at 1. rewrite fold_left_app.
    apply fold_step_union. }
  split; [apply H|]. rewrite H. apply (idemp_L (∪)).
Qed.

(** X2. The keys of the map are the parts before the first [=] of the
    tokens that have one, and the map has at most one entry per token. *)
Theorem stringSliceToMap_dom_size (l : list string) :
  (∀ k, k ∈ dom (stringSliceToMap l)
        ↔ ∃ v, k +:+ "=" +:+ v ∈ l ∧ ¬ has_eq k)
  ∧ (size (stringSliceToMap l) ≤ length l)%nat.
Proof.
  split.
  - intros k. rewrite elem_of_dom. split.
    + intros [v Hv]. apply stringSliceToMap_lookup in Hv
        as (l1 & l2 & -> & Hk & _).
      exists v. split; [|done]. apply elem_of_app. right. by left.
    + intros (v & Hin & Hk). induction l as [|t l IH] using rev_ind.
      { by apply elem_of_nil in Hin. }
      rewrite stringSliceToMap_snoc.
      apply elem_of_app in Hin as [Hin| <-%list_elem_of_singleton].
      * destruct (IH Hin) as [v' Hv'].
        destruct (SplitN_cases t) as [[Hno _]|(k0 & v0 & -> & Hk0 & _)].
        -- rewrite step_no_eq by done. by exists v'.
        -- rewrite step_first_eq by done.
           destruct (decide (k0 = k)) as [->|Hne].
           ++ exists v0. apply lookup_insert_eq.
           ++ exists v'. by rewrite lookup_insert_ne.
      * rewrite step_first_eq by done. exists v. apply lookup_insert_eq.
  - induction l as [|t l IH] using rev_ind; [done|].
    rewrite stringSliceToMap_snoc, length_app. cbn.
    pose proof (size_step (stringSliceToMap l) t). lia.
Qed.


(** ** More on the loader and the serializer *)

(** X4. When the evaluator fails, [ExecuteDSL] returns an error whose text
    is "executing FILE: " followed by the evaluator's message and whose
    cause is the evaluator's error; the evaluator was called once, with the
    map of the variables, and the post-processor was not called. *)
Theorem ExecuteDSL_evaluator_error (DNSConfig : Type)
    (X : Collaborators DNSConfig) (args : ExecuteDSLArgs)
    (w : World DNSConfig) (err : error) :
  JSFile args ≠ "" →
  js_ExecuteJavaScript X (JSFile args) (DevMode args)
    (stringSliceToMap (Variable_ args)) = inr err →
  let r := ExecuteDSL X args w in
  r.1 = inr (wrapError ("executing " +:+ JSFile args +:+ ": " +:+ Error err) err)
  ∧ calls r.2 = calls w ++ [ExecuteJavaScript_call (JSFile args) (DevMode args)
                              (stringSliceToMap (Variable_ args))]
  ∧ count_calls is_PostProcess (calls r.2) = count_calls is_PostProcess (calls w).
Proof.
  intros Hjs Hev. cbn zeta. rewrite ExecuteDSL_eq. unfold after_load.
  apply String.eqb_neq in Hjs. rewrite Hjs. cbn zeta. rewrite Hev. cbn.
  split_and!; try done. rewrite count_calls_app. cbn. lia.
Qed.

(** X5. When the post-processor fails, [ExecuteDSL] returns its error as
    it is, with no graph, after one call of the evaluator and one of the
    post-processor on the evaluator's graph. *)
Theorem ExecuteDSL_postprocess_error (DNSConfig : Type)
    (X : Collaborators DNSConfig) (args : ExecuteDSLArgs)
    (w : World DNSConfig) (cfg0 cfg1 : DNSConfig) (err : error) :
  JSFile args ≠ "" →
  js_ExecuteJavaScript X (JSFile args) (DevMode args)
    (stringSliceToMap (Variable_ args)) = inl cfg0 →
  rtypes_PostProcess X cfg0 = (cfg1, Some err) →
  let r := ExecuteDSL X args w in
  r.1 = inr err
  ∧ calls r.2 = calls w ++ [ExecuteJavaScript_call (JSFile args) (DevMode args)
                              (stringSliceToMap (Variable_ args));
                            PostProcess_call cfg0].
Proof.
  intros Hjs Hev Hpp. cbn zeta. rewrite ExecuteDSL_eq. unfold after_load.
  apply String.eqb_neq in Hjs. rewrite Hjs. cbn zeta. rewrite Hev, Hpp. cbn.
  by rewrite <- app_assoc.
Qed.

(** X6. [ExecuteDSL] returns a graph exactly when the source path is not
    empty, the evaluator answers a graph and the post-processor leaves it
    without error; the graph returned is the one the post-processor left.
    Whatever the outcome, it writes to no stream and to no file and
    changes no setting of the logger. *)
Theorem ExecuteDSL_success_iff (DNSConfig : Type)
    (X : Collaborators DNSConfig) (args : ExecuteDSLArgs)
    (w : World DNSConfig) :
  let r := ExecuteDSL X args w in
  (∀ cfg, r.1 = inl cfg
          ↔ JSFile args ≠ ""
            ∧ ∃ cfg0, js_ExecuteJavaScript X (JSFile args) (DevMode args)
                        (stringSliceToMap (Variable_ args)) = inl cfg0
                      ∧ rtypes_PostProcess X cfg0 = (cfg, None))
  ∧ files r.2 = files w ∧ stdout r.2 = stdout w ∧ stderr r.2 = stderr w
  ∧ log_output r.2 = log_output w ∧ cli_ErrWriter r.2 = cli_ErrWriter w.
Proof.
  cbn zeta. rewrite ExecuteDSL_eq. unfold after_load.
  destruct (String.eqb (JSFile args) "") eqn:Hjs.
  { apply String.eqb_eq in Hjs. cbn. split_and!; try done.
    intros cfg. split; [done|]. by intros [? _]. }
  apply String.eqb_neq in Hjs. cbn zeta.
  destruct (js_ExecuteJavaScript X _ _ _) as [cfg0|err]; cbn.
  - destruct (rtypes_PostProcess X cfg0) as [cfg1 [err|]] eqn:Hpp; cbn;
      split_and!; try done; intros cfg; split.
    + done.
    + intros (_ & c & [= <-] & Hc). congruence.
    + intros [= <-]. split; [done|]. by exists cfg0.
    + intros (_ & c & [= <-] & Hc). congruence.
  - split_and!; try done. intros cfg. split; [done|].
    by intros (_ & c & ? & _).
Qed.

Section SerializerMore.

Context {DNSConfig : Type} (X : Collaborators DNSConfig).
Implicit Types (w : World DNSConfig) (cfg : DNSConfig).

Lemma store_other (name p c : string) (f : gmap string string) :
  p ≠ name → store name c f !! p = f !! p.
Proof.
  intros H. unfold store. destruct (String.eqb name os_DevNull); [done|].
  by rewrite lookup_insert_ne.
Qed.

(** The error that [PrintJSON] returns does not depend on the world. *)
Lemma PrintJSON_result_world (args : PrintJSONArgs) cfg w w' :
  (PrintJSON X args cfg w).1 = (PrintJSON X args cfg w').1.
Proof.
  rewrite !PrintJSON_eq. cbn zeta.
  destruct (rendered X (Pretty args) cfg) as [dat|]; [|done].
  destruct (String.eqb (Output args) ""); [done|]. unfold after_write.
  destruct (os_Create_error X (Output args)); [done|].
  by destruct (os_Write_error X (Output args) dat) as [[? ?]|].
Qed.

End SerializerMore.

(** X7. When the destination cannot be created, [PrintJSON] returns the
    error of [os.Create]: nothing is written or closed, the files hold what
    they held and the standard output gets nothing. *)
Theorem PrintJSON_create_error (DNSConfig : Type)
    (X : Collaborators DNSConfig) (args : PrintJSONArgs) (cfg : DNSConfig)
    (w : World DNSConfig) (dat : string) (err : error) :
  ((if Pretty args then MarshalIndent X cfg "" "  " else Marshal X cfg) w).1
  = inl dat →
  Output args ≠ "" →
  os_Create_error X (Output args) = Some err →
  let r := PrintJSON X args cfg w in
  r.1 = Some err
  ∧ calls r.2 = calls w ++ [Marshal_call cfg; Create_call (Output args)]
  ∧ files r.2 = files w
  ∧ stdout r.2 = stdout w.
Proof.
  rewrite render_eq. cbn [fst]. intros Hr Hout Hc. cbn zeta.
  rewrite PrintJSON_eq. cbn zeta. rewrite Hr.
  apply String.eqb_neq in Hout. rewrite Hout. unfold after_write.
  rewrite Hc. cbn. by rewrite <- app_assoc.
Qed.

(** X8. When the write fails after [n] bytes, [PrintJSON] returns the
    error of the write, and the file has still been closed; the
    destination no longer holds its previous content but the first [n]
    bytes of the rendering. *)
Theorem PrintJSON_write_error (DNSConfig : Type)
    (X : Collaborators DNSConfig) (args : PrintJSONArgs) (cfg : DNSConfig)
    (w : World DNSConfig) (dat : string) (n : nat) (err : error) :
  ((if Pretty args then MarshalIndent X cfg "" "  " else Marshal X cfg) w).1
  = inl dat →
  Output args ≠ "" →
  os_Create_error X (Output args) = None →
  os_Write_error X (Output args) dat = Some (n, err) →
  let r := PrintJSON X args cfg w in
  r.1 = Some err
  ∧ calls r.2 = calls w ++ [Marshal_call cfg; Create_call (Output args);
                            Write_call (Output args) dat;
                            Close_call (Output args)]
  ∧ (Output args ≠ os_DevNull →
     files r.2 !! Output args = Some (GoString.take n dat))
  ∧ stdout r.2 = stdout w.
Proof.
  rewrite render_eq. cbn [fst]. intros Hr Hout Hc Hw. cbn zeta.
  rewrite PrintJSON_eq. cbn zeta. rewrite Hr.
  apply String.eqb_neq in Hout. rewrite Hout. unfold after_write.
  rewrite Hc, Hw. cbn. rewrite <- !app_assoc.
  split_and!; try done. intros ?. by apply store_lookup.
Qed.

(** X9. In every run of [PrintJSON] the file is written once and closed
    once when it was created, and neither written nor closed otherwise;
    at most one file is created, and only for a destination path. *)
Theorem PrintJSON_closes_what_it_creates (DNSConfig : Type)
    (X : Collaborators DNSConfig) (args : PrintJSONArgs) (cfg : DNSConfig)
    (w : World DNSConfig) :
  let r := PrintJSON X args cfg w in
  ∃ created attempted : nat,
    (created ≤ attempted ≤ 1)%nat
    ∧ count_calls is_Create (calls r.2)
      = (count_calls is_Create (calls w) + attempted)%nat
    ∧ count_calls is_Write (calls r.2)
      = (count_calls is_Write (calls w) + created)%nat
    ∧ count_calls is_Close (calls r.2)
      = (count_calls is_Close (calls w) + created)%nat
    ∧ (attempted = 1%nat → Output args ≠ "")
    ∧ (created = 1%nat ↔ attempted = 1%nat
                          ∧ os_Create_error X (Output args) = None)
    ∧ (created = 1%nat →
       ∃ before, calls r.2 = before ++ [Close_call (Output args)]).
Proof.
  cbn zeta. rewrite PrintJSON_eq. cbn zeta.
  destruct (rendered X (Pretty args) cfg) as [dat|err]; cbn.
  2: { exists 0%nat, 0%nat. rewrite !count_calls_app. cbn.
       split_and!; try done; try lia; split; try done; by intros [? _]. }
  destruct (String.eqb (Output args) "") eqn:Hout; cbn.
  { exists 0%nat, 0%nat. rewrite !count_calls_app. cbn.
    split_and!; try done; try lia; split; try done; by intros [? _]. }
  apply String.eqb_neq in Hout. unfold after_write.
  destruct (os_Create_error X (Output args)) eqn:Hc; cbn.
  { exists 0%nat, 1%nat. rewrite !count_calls_app. cbn.
    split_and!; try done; try lia; split; try done; by intros [_ ?]. }
  destruct (os_Write_error X (Output args) dat) as [[n e]|]; cbn;
    exists 1%nat, 1%nat; rewrite !count_calls_app; cbn;
    (split_and!; try done; try lia; try (intros _; by eexists)).
Qed.

(** X10. [PrintJSON] touches no file but its destination: any other path
    holds what it held, and with the empty destination or the discard
    device all files do. *)
Theorem PrintJSON_other_files (DNSConfig : Type)
    (X : Collaborators DNSConfig) (args : PrintJSONArgs) (cfg : DNSConfig)
    (w : World DNSConfig) :
  let r := PrintJSON X args cfg w in
  (∀ p, p ≠ Output args → files r.2 !! p = files w !! p)
  ∧ (Output args = "" ∨ Output args = os_DevNull → files r.2 = files w).
Proof.
  cbn zeta. split.
  - intros p Hp. rewrite PrintJSON_eq. cbn zeta.
    destruct (rendered X (Pretty args) cfg) as [dat|err]; [|done].
    destruct (String.eqb (Output args) ""); [done|]. unfold after_write.
    destruct (os_Create_error X (Output args)); [done|].
    destruct (os_Write_error X (Output args) dat) as [[n e]|]; cbn;
      by rewrite !store_other.
  - by pose proof (PrintJSON_fields X args cfg w) as (_ & _ & _ & _ & _ & H).
Qed.

(** X11. [PrintJSON] returns no error exactly when the rendering gives
    bytes and either the destination is empty or the file could be created
    and the bytes written in full. An error of [Marshal] is returned as it
    is in pretty mode as in compact mode. *)
Theorem PrintJSON_success_iff (DNSConfig : Type)
    (X : Collaborators DNSConfig) (args : PrintJSONArgs) (cfg : DNSConfig)
    (w : World DNSConfig) :
  ((PrintJSON X args cfg w).1 = None
   ↔ ∃ dat,
       ((if Pretty args then MarshalIndent X cfg "" "  " else Marshal X cfg) w).1
       = inl dat
       ∧ (Output args = ""
          ∨ (os_Create_error X (Output args) = None
             ∧ os_Write_error X (Output args) dat = None)))
  ∧ (∀ e, json_Marshal X cfg = inr e → (PrintJSON X args cfg w).1 = Some e).
Proof.
  rewrite render_eq, PrintJSON_eq. cbn [fst]. cbn zeta. split.
  - destruct (rendered X (Pretty args) cfg) as [dat|err]; cbn.
    2: { split; [done|]. by intros (? & ? & _). }
    destruct (String.eqb (Output args) "") eqn:Hout; cbn.
    { apply String.eqb_eq in Hout. split; [|done]. intros _. exists dat. auto. }
    apply String.eqb_neq in Hout. unfold after_write.
    destruct (os_Create_error X (Output args)) eqn:Hc; cbn.
    { split; [done|]. intros (d & _ & [?|[? _]]); done. }
    destruct (os_Write_error X (Output args) dat) as [[n e]|] eqn:Hw; cbn.
    + split; [done|]. intros (d & [= <-] & [?|[_ ?]]); [done|congruence].
    + split; [|done]. intros _. exists dat. auto.
  - intros e He. unfold rendered. rewrite He. by destruct (Pretty args).
Qed.

(** ** More on the orchestrator *)

Section OrchestratorMore.

Context {DNSConfig : Type} (X : Collaborators DNSConfig).

(** The error that [PrintIR] returns, by the answers of the collaborators. *)
Lemma PrintIR_result (args : PrintIRArgs) (w : World DNSConfig) :
  (PrintIR X args w).1
  = match (GetDNSConfig X (PrintIRArgs_GetDNSConfigArgs args) w).1 with
    | inr err => Some err
    | inl cfg =>
        if Raw args then (PrintJSON X (PrintIRArgs_PrintJSONArgs args) cfg w).1
        else
          let v := normalize_ValidateAndNormalizeConfig X cfg in
          if existsb (λ e, negb (is_Warning e)) v.2
          then Some (errorString "exiting due to validation errors")
          else (PrintJSON X (PrintIRArgs_PrintJSONArgs args) v.1 w).1
    end.
Proof.
  rewrite PrintIR_eq. unfold after_PrintIR. cbn zeta.
  destruct (GetDNSConfig X _ w) as [[cfg|err] w1]; cbn [fst snd]; [|done].
  destruct (Raw args); [apply PrintJSON_result_world|].
  destruct (existsb _ _); [done|]. apply PrintJSON_result_world.
Qed.

Lemma all_Warning_iff (errs : list (option error)) :
  existsb (λ e, negb (is_Warning e)) errs = false
  ↔ ∀ e, e ∈ errs → is_Warning e = true.
Proof.
  split.
  - intros Hex e Hin. destruct (is_Warning e) eqn:He; [done|].
    assert (existsb (λ e, negb (is_Warning e)) errs = true) as H
      by (apply existsb_not_Warning; eauto).
    congruence.
  - intros Hw. apply not_true_is_false.
    intros (e & Hin & He)%existsb_not_Warning. rewrite (Hw e Hin) in He. done.
Qed.

(** The error of the check command is the wrapped error of [PrintIR] on
    the forced arguments. *)
Lemma check_Action_result (args : CheckArgs) (w : World DNSConfig) :
  (check_Action X args w).1
  = exit (PrintIR X
            {| PrintIRArgs_GetDNSConfigArgs := CheckArgs_GetDNSConfigArgs args;
               PrintIRArgs_PrintJSONArgs :=
                 {| Pretty := false; Output := os_DevNull |};
               Raw := false |}
            (set_log_output Stdout (set_cli_ErrWriter Stdout w))).1.
Proof.
  unfold check_Action. destruct args as [[[js dev vars] jsonFile]].
  unfold_M. cbn [CheckArgs_GetDNSConfigArgs GetDNSConfigArgs_ExecuteDSLArgs
                 JSFile DevMode Variable_ JSONFile].
  destruct (PrintIR X _ _) as [[e|] w1]; by cbn.
Qed.

(** The result of the loader does not depend on the world. *)
Lemma GetDNSConfig_result_world (args : GetDNSConfigArgs) (w w' : World DNSConfig) :
  (GetDNSConfig X args w).1 = (GetDNSConfig X args w').1.
Proof.
  unfold GetDNSConfig. rewrite !ExecuteDSL_eq. unfold after_load.
  destruct (String.eqb _ ""); [done|]. cbn zeta.
  destruct (js_ExecuteJavaScript X _ _ _) as [c|]; [|done].
  by destruct (rtypes_PostProcess X c) as [? []].
Qed.

(** When the compact rendering to the discard device succeeds. *)
Lemma PrintJSON_DevNull_None (cfg : DNSConfig) (w : World DNSConfig) :
  (PrintJSON X {| Pretty := false; Output := os_DevNull |} cfg w).1 = None
  ↔ ∃ dat, json_Marshal X cfg = inl dat
           ∧ os_Create_error X os_DevNull = None
           ∧ os_Write_error X os_DevNull dat = None.
Proof.
  rewrite PrintJSON_eq. cbn [Pretty Output rendered]. cbn zeta.
  destruct (json_Marshal X cfg) as [dat|]; cbn.
  2: { split; [done|]. by intros (? & ? & _). }
  unfold after_write.
  destruct (os_Create_error X os_DevNull); cbn.
  { split; [done|]. by intros (? & _ & ? & _). }
  destruct (os_Write_error X os_DevNull dat) as [[? ?]|] eqn:Hw; cbn.
  - split; [done|]. intros (d & [= <-] & _ & ?). congruence.
  - split; [|done]. intros _. by exists dat.
Qed.

End OrchestratorMore.

(** X12. When the load succeeds, the raw flag is not set and every issue
    of the validator is a [Warning], [PrintIR] logs the issues and then
    is [PrintJSON] on the graph the validator left, not on the loaded one:
    its result is that of the serializer, so warnings alone never make it
    fail. *)
Theorem PrintIR_warnings_only (DNSConfig : Type) (X : Collaborators DNSConfig)
    (args : PrintIRArgs) (w w1 : World DNSConfig) (cfg cfg' : DNSConfig)
    (errs : list (option error)) :
  Raw args = false →
  GetDNSConfig X (PrintIRArgs_GetDNSConfigArgs args) w = (inl cfg, w1) →
  normalize_ValidateAndNormalizeConfig X cfg = (cfg', errs) →
  (∀ e, e ∈ errs → is_Warning e = true) →
  let w2 := (PrintValidationErrors errs
               (record_call (ValidateAndNormalizeConfig_call cfg) w1)).2 in
  let r := PrintIR X args w in
  r = PrintJSON X (PrintIRArgs_PrintJSONArgs args) cfg' w2
  ∧ r.1 = (PrintJSON X (PrintIRArgs_PrintJSONArgs args) cfg' w).1
  ∧ (∃ rest, calls r.2 = calls w1 ++ ValidateAndNormalizeConfig_call cfg
                           :: Marshal_call cfg' :: rest)
  ∧ written (log_output w) w2 = written (log_output w) w ++ classifier_lines errs.
Proof.
  intros Hraw Hload Hval Hwarn. cbn zeta.
  assert (existsb (λ e, negb (is_Warning e)) errs = false) as Hex.
  { apply not_true_is_false. intros (e & Hin & He)%existsb_not_Warning.
    rewrite (Hwarn e Hin) in He. done. }
  pose proof (load_fields X (PrintIRArgs_GetDNSConfigArgs args) w)
    as (_ & Ho & He & Hlo & _ & _).
  cbn zeta in *. rewrite Hload in *. cbn [fst snd] in *.
  rewrite PrintIR_eq. unfold after_PrintIR. cbn zeta.
  rewrite Hload. cbn [fst snd]. rewrite Hraw, Hval. cbn [fst snd].
  rewrite Hex, PrintValidationErrors_eq. cbn [snd].
  set (w2 := record_call (ValidateAndNormalizeConfig_call cfg) w1).
  destruct (logged_fields (classifier_lines errs) w2) as (_ & Lc & _ & _ & Lw).
  split_and!; try done.
  - apply PrintJSON_result_world.
  - pose proof (PrintJSON_fields X (PrintIRArgs_PrintJSONArgs args) cfg'
                  (logged (classifier_lines errs) w2))
      as (_ & _ & _ & _ & (rest & Hc & _) & _).
    cbn zeta in Hc. exists rest. rewrite Hc, Lc. subst w2. cbn.
    by rewrite <- app_assoc.
  - rewrite Lw. subst w2. cbn [log_output record_call].
    rewrite Hlo, decide_True by done. f_equal.
    destruct (log_output w); cbn; congruence.
Qed.

(** X13. The calls of [PrintIR] come in three runs: those of the loader,
    then at most one call of the validator (none with the raw flag), then
    those of the serializer; the deferred warning is never called. *)
Theorem PrintIR_call_order (DNSConfig : Type) (X : Collaborators DNSConfig)
    (args : PrintIRArgs) (w : World DNSConfig) :
  ∃ ld vl sr,
    calls (PrintIR X args w).2 = calls w ++ ld ++ vl ++ sr
    ∧ Forall (λ c, is_load c = true) ld
    ∧ (vl = [] ∨ Raw args = false ∧ ∃ cfg, vl = [ValidateAndNormalizeConfig_call cfg])
    ∧ Forall (λ c, is_serialize c = true) sr
    ∧ (sr ≠ [] → ∃ cfg, (GetDNSConfig X (PrintIRArgs_GetDNSConfigArgs args) w).1
                        = inl cfg).
Proof.
  rewrite PrintIR_eq. unfold after_PrintIR. cbn zeta.
  pose proof (load_fields X (PrintIRArgs_GetDNSConfigArgs args) w)
    as (_ & _ & _ & _ & _ & ld & Hld & Fld).
  cbn zeta in *.
  destruct (GetDNSConfig X _ w) as [[cfg|err] w1]; cbn [fst snd] in *.
  2: { exists ld, [], []. rewrite !app_nil_r.
       split; [done|]. split; [done|]. split; [by left|].
       split; [constructor|done]. }
  assert (∀ pj c w', ∃ sr,
            calls (PrintJSON X pj c w').2 = calls w' ++ sr
            ∧ Forall (λ c, is_serialize c = true) sr) as HPJ.
  { intros pj c w'.
    pose proof (PrintJSON_fields X pj c w') as (_ & _ & _ & _ & (rest & Hc & Fr) & _).
    exists (Marshal_call c :: rest). split; [done|]. by constructor. }
  assert (∃ c0 : DNSConfig, inl cfg = inl c0 :> DNSConfig + error) as Hcfg
    by (by exists cfg).
  destruct (Raw args) eqn:Hraw.
  - destruct (HPJ (PrintIRArgs_PrintJSONArgs args) cfg w1) as (sr & Hsr & Fsr).
    exists ld, [], sr. rewrite Hsr, Hld. cbn [app].
    split; [by rewrite <- app_assoc|]. split; [done|]. split; [by left|].
    by split.
  - destruct (normalize_ValidateAndNormalizeConfig X cfg) as [cfg' errs].
    cbn [fst snd].
    set (w2 := record_call (ValidateAndNormalizeConfig_call cfg) w1).
    destruct (logged_fields (classifier_lines errs) w2) as (_ & Lc & _).
    assert (calls w2 = calls w ++ ld ++ [ValidateAndNormalizeConfig_call cfg])
      as Hw2 by (subst w2; cbn; by rewrite Hld, <- app_assoc).
    assert ([ValidateAndNormalizeConfig_call cfg] = []
            ∨ false = false
              ∧ ∃ c0, [ValidateAndNormalizeConfig_call cfg]
                      = [ValidateAndNormalizeConfig_call c0]) as Hvl.
    { right. split; [done|]. by exists cfg. }
    destruct (existsb _ errs); cbn [fst snd].
    + exists ld, [ValidateAndNormalizeConfig_call cfg], [].
      rewrite Lc, Hw2, app_nil_r.
      split; [done|]. split; [done|]. split; [done|]. split; [constructor|done].
    + destruct (HPJ (PrintIRArgs_PrintJSONArgs args) cfg'
                  (logged (classifier_lines errs) w2)) as (sr & Hsr & Fsr).
      exists ld, [ValidateAndNormalizeConfig_call cfg], sr.
      rewrite Hsr, Lc, Hw2.
      split; [by rewrite <- !app_assoc|]. split; [done|]. split; [done|].
      by split.
Qed.

(** X14. [PrintIR] returns no error exactly when the load gives a graph
    and either the raw flag is set and the serializer succeeds on that
    graph, or it is not set, every issue of the validator is a [Warning]
    and the serializer succeeds on the graph the validator left. *)
Theorem PrintIR_success_iff (DNSConfig : Type) (X : Collaborators DNSConfig)
    (args : PrintIRArgs) (w : World DNSConfig) :
  (PrintIR X args w).1 = None
  ↔ ∃ cfg,
      (GetDNSConfig X (PrintIRArgs_GetDNSConfigArgs args) w).1 = inl cfg
      ∧ ((Raw args = true
          ∧ (PrintJSON X (PrintIRArgs_PrintJSONArgs args) cfg w).1 = None)
         ∨ (Raw args = false
            ∧ (∀ e, e ∈ (normalize_ValidateAndNormalizeConfig X cfg).2 →
                    is_Warning e = true)
            ∧ (PrintJSON X (PrintIRArgs_PrintJSONArgs args)
                 (normalize_ValidateAndNormalizeConfig X cfg).1 w).1 = None)).
Proof.
  rewrite PrintIR_result.
  destruct (GetDNSConfig X _ w).1 as [cfg|err].
  2: { split; [done|]. by intros (? & ? & _). }
  destruct (Raw args) eqn:Hraw.
  - split.
    + intros H. exists cfg. split; [done|]. by left.
    + intros (c & [= <-] & [[_ H]|[? _]]); done.
  - cbn zeta. destruct (existsb _ _) eqn:Hex.
    + split; [done|]. intros (c & [= <-] & [[? _]|(_ & Hw & _)]); [done|].
      apply all_Warning_iff in Hw. congruence.
    + split.
      * intros H. exists cfg. split; [done|]. right.
        by rewrite <- all_Warning_iff.
      * intros (c & [= <-] & [[? _]|(_ & _ & H)]); done.
Qed.


(** X16. The print-ir command leaves the world as [PrintIR] leaves it: it
    prints no closing message and does not call the deferred warning. It
    returns nil exactly when [PrintIR] does, and otherwise an exit error
    with code 1 whose text is the text of the error of [PrintIR]. *)
Theorem print_ir_Action_contract (DNSConfig : Type)
    (X : Collaborators DNSConfig) (args : PrintIRArgs) (w : World DNSConfig) :
  let r := print_ir_Action X args w in
  let p := PrintIR X args w in
  r.2 = p.2
  ∧ (r.1 = None ↔ p.1 = None)
  ∧ (∀ e, p.1 = Some e → r.1 = Some (exitError e 1) ∧ fmt_s r.1 = fmt_s p.1)
  ∧ count_calls is_PrintWarning (calls r.2) = count_calls is_PrintWarning (calls w).
Proof.
  cbn zeta.
  pose proof (PrintIR_fields X args w) as (_ & _ & _ & _ & HW & _).
  cbn zeta in HW.
  unfold print_ir_Action, mbind, M_bind, mret, M_ret.
  destruct (PrintIR X args w) as [[e|] w1]; cbn [fst snd exit] in *.
  - split_and!; try done. by intros e' [= <-].
  - split_and!; done.
Qed.

(** X17. The check command returns nil exactly when the load gives a
    graph, every issue of the validator is a [Warning], [Marshal] renders
    the validated graph, and the discard device can be created and written:
    a rendering error fails the check although no text is shown. *)
Theorem check_Action_success_iff (DNSConfig : Type)
    (X : Collaborators DNSConfig) (args : CheckArgs) (w : World DNSConfig) :
  (check_Action X args w).1 = None
  ↔ ∃ cfg dat,
      (GetDNSConfig X (CheckArgs_GetDNSConfigArgs args) w).1 = inl cfg
      ∧ (∀ e, e ∈ (normalize_ValidateAndNormalizeConfig X cfg).2 →
              is_Warning e = true)
      ∧ json_Marshal X (normalize_ValidateAndNormalizeConfig X cfg).1 = inl dat
      ∧ os_Create_error X os_DevNull = None
      ∧ os_Write_error X os_DevNull dat = None.
Proof.
  rewrite check_Action_result, PrintIR_result.
  cbn [PrintIRArgs_GetDNSConfigArgs PrintIRArgs_PrintJSONArgs Raw]. cbn zeta.
  rewrite (GetDNSConfig_result_world X _ _ w).
  destruct (GetDNSConfig X _ w).1 as [cfg|err]; cbn [exit].
  2: { split; [done|]. by intros (? & ? & ? & _). }
  destruct (existsb _ _) eqn:Hex; cbn [exit].
  - split; [done|]. intros (c & dat & [= <-] & Hw & _).
    apply all_Warning_iff in Hw. congruence.
  - pose proof (proj1 (all_Warning_iff _) Hex) as Hall.
    destruct (PrintJSON X _ _ _).1 as [e|] eqn:HP; cbn [exit].
    + split; [done|]. intros (c & dat & [= <-] & _ & Hm & Hc & Hwr).
      assert ((PrintJSON X {| Pretty := false; Output := os_DevNull |}
                 (normalize_ValidateAndNormalizeConfig X cfg).1
                 (set_log_output Stdout (set_cli_ErrWriter Stdout w))).1 = None)
        as HN by (apply PrintJSON_DevNull_None; by exists dat).
      congruence.
    + split; [|done]. intros _.
      apply PrintJSON_DevNull_None in HP as (dat & ? & ? & ?).
      by exists cfg, dat.
Qed.

(** X21. A configuration that passes the check command is one that
    print-ir serializes: when check returns nil, [PrintIR] without the raw
    flag, in compact mode and to the standard output, returns nil on the
    same load arguments, in whatever world it runs. *)
Theorem check_passes_then_PrintIR_succeeds (DNSConfig : Type)
    (X : Collaborators DNSConfig) (args : CheckArgs) (w w' : World DNSConfig) :
  (check_Action X args w).1 = None →
  (PrintIR X {| PrintIRArgs_GetDNSConfigArgs := CheckArgs_GetDNSConfigArgs args;
                PrintIRArgs_PrintJSONArgs := {| Pretty := false; Output := "" |};
                Raw := false |} w').1 = None.
Proof.
  rewrite check_Action_result, !PrintIR_result.
  cbn [PrintIRArgs_GetDNSConfigArgs PrintIRArgs_PrintJSONArgs Raw]. cbn zeta.
  rewrite (GetDNSConfig_result_world X _ _ w').
  destruct (GetDNSConfig X _ w').1 as [cfg|err]; cbn [exit]; [|done].
  destruct (existsb _ _); cbn [exit]; [done|].
  destruct (PrintJSON X _ _ _).1 as [e|] eqn:HP; cbn [exit]; [done|].
  intros _. apply PrintJSON_DevNull_None in HP as (dat & Hm & _).
  rewrite PrintJSON_eq. cbn [Pretty Output rendered]. cbn zeta.
  by rewrite Hm.
Qed.

(** ** More on the classifier, on [SplitN] and on the check command *)

(** X18. The flag of two lists of issues put end to end is the
    disjunction of their flags, so adding issues never clears it; and what
    is logged is one count line for the total, then the lines of the first
    list, then those of the second. *)
Theorem PrintValidationErrors_app (DNSConfig : Type)
    (a b : list (option error)) (w : World DNSConfig) :
  (PrintValidationErrors (a ++ b) w).1
  = (PrintValidationErrors a w).1 || (PrintValidationErrors b w).1
  ∧ (a ++ b ≠ [] →
     written (log_output w) (PrintValidationErrors (a ++ b) w).2
     = written (log_output w) w
       ++ count_line (length a + length b)
          :: map issue_line a ++ map issue_line b).
Proof.
  rewrite !PrintValidationErrors_eq. cbn [fst snd]. split.
  - by rewrite existsb_app.
  - intros Hne.
    destruct (logged_fields (classifier_lines (a ++ b)) w) as (_ & _ & _ & _ & Lw).
    rewrite Lw, decide_True by done. f_equal.
    assert (∀ l, l ≠ [] → classifier_lines l
                          = count_line (length l) :: map issue_line l) as Hcl
      by (by intros []).
    by rewrite (Hcl _ Hne), length_app, map_app.
Qed.

Section SplitNMore.

Lemma prefix_cut (sep s : string) :
  String.prefix sep s = true →
  s = sep +:+ GoString.drop (String.length sep) s.
Proof.
  revert s. induction sep as [|c sep IH]; intros s H; [by destruct s|].
  destruct s as [|d s]; cbn [String.prefix] in H; [done|].
  destruct (ascii_dec c d) as [->|]; [|done].
  rewrite string_app_cons. cbn [String.length GoString.drop]. f_equal. by apply IH.
Qed.

Lemma Index_cut (s sep : string) (m : nat) :
  GoString.Index s sep = Some m →
  s = GoString.take m s +:+ sep +:+ GoString.drop (m + String.length sep) s.
Proof.
  revert m. induction s as [|c s IH]; intros m H.
  - cbn [GoString.Index] in H.
    destruct (String.prefix sep "") eqn:Hp; [|done]. injection H as <-.
    by apply prefix_cut in Hp.
  - cbn [GoString.Index] in H.
    destruct (String.prefix sep (String c s)) eqn:Hp.
    + injection H as <-. by apply prefix_cut in Hp.
    + destruct (GoString.Index s sep) as [m'|] eqn:Hs; [|done].
      injection H as <-. cbn [GoString.take GoString.drop Nat.add].
      rewrite string_app_cons. f_equal. by apply IH.
Qed.

Lemma genSplit_loop_cons (fuel : nat) (s sep : string) :
  ∃ a rest, GoString.genSplit_loop fuel s sep = a :: rest.
Proof.
  destruct fuel; cbn; [by eexists _, _|].
  destruct (GoString.Index s sep); by eexists _, _.
Qed.

Lemma genSplit_loop_concat (fuel : nat) (s sep : string) :
  String.concat sep (GoString.genSplit_loop fuel s sep) = s.
Proof.
  revert s. induction fuel as [|k IH]; intros s; [done|].
  cbn [GoString.genSplit_loop].
  destruct (GoString.Index s sep) as [m|] eqn:HI; [|done].
  destruct (genSplit_loop_cons k (GoString.drop (m + String.length sep) s) sep)
    as (a & rest & E).
  pose proof (IH (GoString.drop (m + String.length sep) s)) as H.
  rewrite E in H |- *.
  change (GoString.take m s +:+ sep +:+ String.concat sep (a :: rest) = s).
  rewrite H. symmetry. by apply Index_cut.
Qed.

Lemma genSplit_loop_length (fuel : nat) (s sep : string) :
  (1 ≤ length (GoString.genSplit_loop fuel s sep) ≤ S fuel)%nat.
Proof.
  revert s. induction fuel as [|k IH]; intros s; [cbn; lia|].
  cbn [GoString.genSplit_loop].
  destruct (GoString.Index s sep) as [m|]; [|cbn; lia].
  specialize (IH (GoString.drop (m + String.length sep) s)). cbn [length]. lia.
Qed.

End SplitNMore.

(** X19. [SplitN] loses no byte: for a separator that is not empty and a
    positive count, the pieces joined
    by the separator give the string back, and there are at least one and
    at most [n] of them. With the separator [=] and the count 2 of
    [stringSliceToMap], a token is therefore either kept whole or cut into
    a key and a value that give it back around one [=]. *)
Theorem SplitN_concat (s sep : string) (n : nat) :
  sep ≠ "" → (0 < n)%nat →
  String.concat sep (GoString.SplitN s sep n) = s
  ∧ (1 ≤ length (GoString.SplitN s sep n) ≤ n)%nat
  ∧ (∀ k v, GoString.SplitN s "=" 2 = [k; v] → s = k +:+ "=" +:+ v).
Proof.
  intros _ Hn. destruct n as [|n]; [lia|]. unfold GoString.SplitN. split; [|split].
  - apply genSplit_loop_concat.
  - pose proof (genSplit_loop_length
                  (S n `min` (String.length s + 1) - 1) s sep). lia.
  - intros k v H.
    pose proof (genSplit_loop_concat (2 `min` (String.length s + 1) - 1) s "=") as Hc.
    rewrite H in Hc. by cbn in Hc.
Qed.

Section CheckMore.

Context {DNSConfig : Type} (X : Collaborators DNSConfig).

Lemma check_Action_log_output (args : CheckArgs) (w : World DNSConfig) :
  log_output (check_Action X args w).2 = Stdout.
Proof.
  unfold check_Action. destruct args as [[[js dev vars] jsonFile]].
  unfold_M. cbn [CheckArgs_GetDNSConfigArgs GetDNSConfigArgs_ExecuteDSLArgs
                 JSFile DevMode Variable_ JSONFile].
  match goal with
  | |- context [PrintIR X ?p ?w0] =>
      pose proof (PrintIR_fields X p w0) as (Hlo & _);
      destruct (PrintIR X p w0) as [[e|] w1]
  end; cbn in *; done.
Qed.

End CheckMore.

(** X20. The check command does not put the logger back: in the world it
    leaves, the logger writes to the standard output, so that a later run
    of [PrintIR] in the same process sends nothing to the error stream,
    its issue lines going to the standard output. *)
Theorem check_Action_redirection_persists (DNSConfig : Type)
    (X : Collaborators DNSConfig) (cargs : CheckArgs) (args : PrintIRArgs)
    (w : World DNSConfig) :
  let w' := (check_Action X cargs w).2 in
  log_output w' = Stdout
  ∧ stderr (PrintIR X args w').2 = stderr w'
  ∧ (Raw args = false →
     Output (PrintIRArgs_PrintJSONArgs args) ≠ "" →
     ∀ cfg, (GetDNSConfig X (PrintIRArgs_GetDNSConfigArgs args) w').1 = inl cfg →
       stdout (PrintIR X args w').2
       = stdout w'
         ++ classifier_lines (normalize_ValidateAndNormalizeConfig X cfg).2).
Proof.
  cbn zeta. pose proof (check_Action_log_output X cargs w) as Hlo.
  split; [done|]. split.
  - by pose proof (PrintIR_fields X args (check_Action X cargs w).2)
      as (_ & _ & Hse & _); apply Hse; left.
  - intros Hraw Hout cfg Hcfg.
    rewrite (PrintIR_stdout_logged X args _ Hlo Hraw Hout). by rewrite Hcfg.
Qed.

(** ** The further properties at a concrete invocation *)


Lemma ExecuteDSL_evaluator_error_witness :
  (ExecuteDSL demo {| JSFile := "broken.js"; DevMode := false; Variable_ := ["a=b"] |}
     demo_world).1
  = inr (wrapError "executing broken.js: boom" (otherError "*errors.errorString" "boom")).
Proof.
  exact (proj1 (ExecuteDSL_evaluator_error _ demo
                  {| JSFile := "broken.js"; DevMode := false; Variable_ := ["a=b"] |}
                  demo_world (otherError "*errors.errorString" "boom")
                  ltac:(discriminate) eq_refl)).
Defined.

Lemma ExecuteDSL_postprocess_error_witness :
  (ExecuteDSL demo_post_fails
     {| JSFile := "one.js"; DevMode := false; Variable_ := [] |} demo_world).1
  = inr (otherError "*errors.errorString" "bad record").
Proof.
  exact (proj1 (ExecuteDSL_postprocess_error _ demo_post_fails
                  {| JSFile := "one.js"; DevMode := false; Variable_ := [] |}
                  demo_world ["example.com"] ["example.com"]
                  (otherError "*errors.errorString" "bad record")
                  ltac:(discriminate) eq_refl eq_refl)).
Defined.

Lemma PrintJSON_create_error_witness :
  let r := PrintJSON demo {| Pretty := false; Output := "/readonly/out.json" |}
             [] demo_world in
  r.1 = Some (otherError "*fs.PathError" "permission denied")
  ∧ calls r.2 = [Marshal_call []; Create_call "/readonly/out.json"]
  ∧ files r.2 = files demo_world.
Proof.
  pose proof (PrintJSON_create_error _ demo
                {| Pretty := false; Output := "/readonly/out.json" |} [] demo_world
                ("{" +:+ quote +:+ "domains" +:+ quote +:+ ":[]}")
                (otherError "*fs.PathError" "permission denied")
                eq_refl ltac:(discriminate) eq_refl) as (Hr & Hc & Hf & _).
  split; [exact Hr|]. split; [exact Hc|exact Hf].
Defined.

Lemma PrintJSON_write_error_witness :
  let r := PrintJSON demo_short_write {| Pretty := false; Output := "out.json" |}
             [] demo_world in
  r.1 = Some (otherError "*fs.PathError" "no space left on device")
  ∧ files r.2 !! "out.json" = Some ("{" +:+ quote +:+ "dom")
  ∧ count_calls is_Close (calls r.2) = 1%nat.
Proof.
  pose proof (PrintJSON_write_error _ demo_short_write
                {| Pretty := false; Output := "out.json" |} [] demo_world
                ("{" +:+ quote +:+ "domains" +:+ quote +:+ ":[]}") 5
                (otherError "*fs.PathError" "no space left on device")
                eq_refl ltac:(discriminate) eq_refl eq_refl) as (Hr & Hc & Hf & _).
  split; [exact Hr|]. split; [apply Hf; discriminate|]. by rewrite Hc.
Defined.

Lemma PrintIR_warnings_only_witness :
  let r := PrintIR demo (demo_args "one.js" [] false "" false) demo_world in
  r.1 = None
  ∧ stderr r.2 = ["1 Validation errors:" +:+ nl; "WARNING: no NS records" +:+ nl].
Proof.
  pose proof (PrintIR_warnings_only _ demo (demo_args "one.js" [] false "" false)
                demo_world
                (GetDNSConfig demo
                   (PrintIRArgs_GetDNSConfigArgs
                      (demo_args "one.js" [] false "" false)) demo_world).2
                ["example.com"] ["example.com"] [Some (Warning "no NS records")]
                eq_refl eq_refl eq_refl) as H.
  cbn zeta in H. destruct H as (Hr & _).
  { intros e ->%list_elem_of_singleton. reflexivity. }
  rewrite Hr. by vm_compute.
Defined.


Lemma SplitN_concat_witness :
  String.concat "=" (GoString.SplitN "a=b=c" "=" 2) = "a=b=c"
  ∧ GoString.SplitN "a=b=c" "=" 2 = ["a"; "b=c"].
Proof.
  split; [|reflexivity].
  exact (proj1 (SplitN_concat "a=b=c" "=" 2 ltac:(discriminate) ltac:(lia))).
Defined.

Lemma check_passes_then_PrintIR_succeeds_witness :
  (PrintIR demo (demo_args "one.js" [] false "" false) demo_world).1 = None.
Proof.
  exact (check_passes_then_PrintIR_succeeds _ demo
           {| CheckArgs_GetDNSConfigArgs :=
                PrintIRArgs_GetDNSConfigArgs (demo_args "one.js" [] false "" false) |}
           demo_world demo_world eq_refl).
Defined.
